(** * sora2api: the credential pool (TokenManager, LoadBalancer)

    A shallow embedding of [src/services/token_manager.py] and
    [src/services/load_balancer.py].  Python objects become records, the
    database handle and the lock table become explicit state, exceptions
    become the [Raise] branch of a result, and the random generator and the
    clock become arguments. *)

From Stdlib Require Import Ascii.
From stdpp Require Import gmap strings list fin_maps pretty.

Local Open Scope Z_scope.

(** ** Exceptions and results *)

(** The exception classes that the two modules raise or let through. *)
Inductive PyExc : Type :=
  | ValueError (msg : string)
  | IndexError
  | NotFound (token_id : Z)
  | Exception (msg : string).

Inductive Result (A : Type) : Type :=
  | Ok (a : A)
  | Raise (e : PyExc).
Arguments Ok {A} a.
Arguments Raise {A} e.

Definition is_ok {A} (r : Result A) : bool :=
  match r with Ok _ => true | Raise _ => false end.

(** ** A state and exception monad

    [M S A] is a Python coroutine body that runs on a mutable object of type
    [S]: it ends with a value or with an exception, and the writes made
    before an exception stay made. *)
Definition M (S A : Type) : Type := S -> Result A * S.

Definition ret {S A} (a : A) : M S A := fun s => (Ok a, s).

Definition raise {S A} (e : PyExc) : M S A := fun s => (Raise e, s).

Definition bind {S A B} (m : M S A) (k : A -> M S B) : M S B :=
  fun s =>
    match m s with
    | (Ok a, s') => k a s'
    | (Raise e, s') => (Raise e, s')
    end.

(** [try: m / except Exception as e: h e]. Every [PyExc] is an [Exception]. *)
Definition try_except {S A} (m : M S A) (h : PyExc -> M S A) : M S A :=
  fun s =>
    match m s with
    | (Ok a, s') => (Ok a, s')
    | (Raise e, s') => h e s'
    end.

Definition gets {S A} (f : S -> A) : M S A := fun s => (Ok (f s), s).

Definition modify {S} (f : S -> S) : M S unit := fun s => (Ok tt, f s).

(** An external call that does not touch the state. *)
Definition lift {S A} (r : Result A) : M S A := fun s => (r, s).

Declare Scope py_scope.
Delimit Scope py_scope with py.
Notation "'let*' x ':=' m 'in' k" := (bind m (fun x => k))
  (at level 10, x pattern, m at level 100, k at level 200) : py_scope.
Notation "m ';;' k" := (bind m (fun _ => k))
  (at level 100, k at level 200, right associativity) : py_scope.
Local Open Scope py_scope.

(** ** The data model: [core/models.py] *)

(** Modelled from the spec: the [Token] model class ([core/models.py] is
    missing).  The fields are those that [add_token] passes to the
    constructor, [id], and [cooled_until] of the spec's Credential (section 3).
    Timestamps are seconds on the clock that is passed to the operations.
    [id] is unset until the store assigns it; an unset [id] is written 0. *)
Record Token : Type := {
  id : Z;
  token : string;
  email : string;
  name : string;
  st : option string;
  rt : option string;
  remark : option string;
  expiry_time : option Z;
  is_active : bool;
  cooled_until : option Z;
  plan_type : option string;
  plan_title : option string;
  subscription_end : option Z;
  sora2_supported : option bool;
  sora2_invite_code : option string;
  sora2_redeemed_count : Z;
  sora2_total_count : Z
}.

(** Modelled from the spec: the [TokenStats] model class ([core/models.py]
    is missing): the counters of the spec's Credential (section 3). *)
Record TokenStats : Type := {
  image_count : Z;
  video_count : Z;
  error_count : Z
}.

(** Modelled from the spec: the admin configuration record returned by
    [getAdminConfig] (section 6).  The code reads [error_ban_threshold] and
    [video_cooldown_threshold] only. *)
Record AdminConfig : Type := {
  error_ban_threshold : Z;
  video_cooldown_threshold : Z;
  cooldown_duration : Z;
  lock_timeout_config : Z
}.

(** ** The persistent store: [core/database.py] *)

(** Modelled from the spec: one stored credential of the missing
    [core/database.py], the token row and its counters (the Credential of
    section 3). *)
Record Row : Type := {
  row_token : Token;
  row_stats : TokenStats
}.

(** Modelled from the spec: the [Database] class ([core/database.py] is
    missing), the PersistentStore of sections 2 and 6: a durable record of
    credentials and counters keyed by credential id, and the mutable
    configuration. *)
Record Database : Type := {
  table : gmap Z Row;
  admin_config : AdminConfig
}.

Definition set_table (f : gmap Z Row -> gmap Z Row) (db : Database) : Database :=
  {| table := f (table db); admin_config := admin_config db |}.

Definition set_row_token (f : Token -> Token) (r : Row) : Row :=
  {| row_token := f (row_token r); row_stats := row_stats r |}.

Definition set_row_stats (f : TokenStats -> TokenStats) (r : Row) : Row :=
  {| row_token := row_token r; row_stats := f (row_stats r) |}.

Definition with_is_active (b : bool) (t : Token) : Token :=
  {| id := id t; token := token t; email := email t; name := name t;
     st := st t; rt := rt t; remark := remark t;
     expiry_time := expiry_time t; is_active := b;
     cooled_until := cooled_until t; plan_type := plan_type t;
     plan_title := plan_title t; subscription_end := subscription_end t;
     sora2_supported := sora2_supported t;
     sora2_invite_code := sora2_invite_code t;
     sora2_redeemed_count := sora2_redeemed_count t;
     sora2_total_count := sora2_total_count t |}.

Definition with_cooled_until (c : option Z) (t : Token) : Token :=
  {| id := id t; token := token t; email := email t; name := name t;
     st := st t; rt := rt t; remark := remark t;
     expiry_time := expiry_time t; is_active := is_active t;
     cooled_until := c; plan_type := plan_type t;
     plan_title := plan_title t; subscription_end := subscription_end t;
     sora2_supported := sora2_supported t;
     sora2_invite_code := sora2_invite_code t;
     sora2_redeemed_count := sora2_redeemed_count t;
     sora2_total_count := sora2_total_count t |}.

Definition with_id (i : Z) (t : Token) : Token :=
  {| id := i; token := token t; email := email t; name := name t;
     st := st t; rt := rt t; remark := remark t;
     expiry_time := expiry_time t; is_active := is_active t;
     cooled_until := cooled_until t; plan_type := plan_type t;
     plan_title := plan_title t; subscription_end := subscription_end t;
     sora2_supported := sora2_supported t;
     sora2_invite_code := sora2_invite_code t;
     sora2_redeemed_count := sora2_redeemed_count t;
     sora2_total_count := sora2_total_count t |}.

Definition with_error_count (n : Z) (s : TokenStats) : TokenStats :=
  {| image_count := image_count s; video_count := video_count s;
     error_count := n |}.

Definition with_video_count (n : Z) (s : TokenStats) : TokenStats :=
  {| image_count := image_count s; video_count := n;
     error_count := error_count s |}.

Definition with_image_count (n : Z) (s : TokenStats) : TokenStats :=
  {| image_count := n; video_count := video_count s;
     error_count := error_count s |}.

(** Modelled from the spec: the shape shared by the mutators of the missing
    [Database]: change the row of [token_id], or surface NotFound
    (section 7) when there is none. *)
Definition update_row (token_id : Z) (f : Row -> Row) : M Database unit :=
  fun db =>
    match table db !! token_id with
    | Some r => (Ok tt, set_table (<[token_id := f r]>) db)
    | None => (Raise (NotFound token_id), db)
    end.

(** Modelled from the spec: the [Token] object that a query of the missing
    [Database] returns for the row stored under [token_id]; its [id] is the
    key. *)
Definition token_of_row (kr : Z * Row) : Token := with_id kr.1 (row_token kr.2).

Definition all_tokens (db : Database) : list Token :=
  token_of_row <$> map_to_list (table db).

(** Eligibility (section 3): status Active and no cooldown still running. *)
Definition selectable (now : Z) (t : Token) : bool :=
  is_active t &&
  match cooled_until t with
  | None => true
  | Some c => c <=? now
  end.

(** Modelled from the spec: [Database.get_active_tokens]
    ([core/database.py] is missing).  It is the whole of step 1 of
    [select] (section 4.4), since [select_token] applies no cooldown filter
    of its own and [TokenManager.get_active_tokens] documents its result as
    "all active tokens (not cooled down)": the credentials that are
    selectable in the sense of section 3. *)
Definition db_get_active_tokens (now : Z) : M Database (list Token) :=
  gets (fun db => List.filter (selectable now) (all_tokens db)).

(** Modelled from the spec: [Database.get_all_tokens] ([getAll]). *)
Definition db_get_all_tokens : M Database (list Token) := gets all_tokens.

(** Modelled from the spec: [Database.get_token] ([get]); the callers test
    the result for None. *)
Definition db_get_token (token_id : Z) : M Database (option Token) :=
  gets (fun db =>
          (fun r => token_of_row (token_id, r)) <$> table db !! token_id).

(** Modelled from the spec: [Database.get_token_by_value]: a stored
    credential with this secret value, if there is one (section 7,
    Conflict). *)
Definition db_get_token_by_value (token_value : string)
  : M Database (option Token) :=
  gets (fun db =>
          List.find (fun t => bool_decide (token t = token_value))
                    (all_tokens db)).

(** Modelled from the spec: the id that the missing [Database.add_token]
    assigns ([add(record) -> id]): one above every stored id. *)
Definition next_id (db : Database) : Z :=
  1 + foldr Z.max 0 (fst <$> map_to_list (table db)).

Definition new_stats : TokenStats :=
  {| image_count := 0; video_count := 0; error_count := 0 |}.

(** Modelled from the spec: [Database.add_token] ([add(record) -> id]). *)
Definition db_add_token (t : Token) : M Database Z :=
  fun db =>
    let token_id := next_id db in
    (Ok token_id,
     set_table (<[token_id := {| row_token := with_id token_id t;
                                 row_stats := new_stats |}]>) db).

(** Modelled from the spec: the fields of [update(id, fields)], which are
    the keyword arguments that [update_existing_token] and [update_token]
    pass to the missing [Database.update_token]; None, the default of
    [TokenManager.update_token], leaves the column as it is. *)
Record TokenUpdate : Type := {
  u_token : option string;
  u_st : option string;
  u_rt : option string;
  u_remark : option string;
  u_expiry_time : option Z;
  u_plan_type : option string;
  u_plan_title : option string;
  u_subscription_end : option Z
}.

Definition or_keep {A} (new old : option A) : option A :=
  match new with
  | Some a => Some a
  | None => old
  end.

Definition apply_update (u : TokenUpdate) (t : Token) : Token :=
  {| id := id t; token := default (token t) (u_token u);
     email := email t; name := name t;
     st := or_keep (u_st u) (st t); rt := or_keep (u_rt u) (rt t);
     remark := or_keep (u_remark u) (remark t);
     expiry_time := or_keep (u_expiry_time u) (expiry_time t);
     is_active := is_active t; cooled_until := cooled_until t;
     plan_type := or_keep (u_plan_type u) (plan_type t);
     plan_title := or_keep (u_plan_title u) (plan_title t);
     subscription_end := or_keep (u_subscription_end u) (subscription_end t);
     sora2_supported := sora2_supported t;
     sora2_invite_code := sora2_invite_code t;
     sora2_redeemed_count := sora2_redeemed_count t;
     sora2_total_count := sora2_total_count t |}.

(** Modelled from the spec: [Database.update_token] ([update(id, fields)]). *)
Definition db_update_token (token_id : Z) (u : TokenUpdate) : M Database unit :=
  update_row token_id (set_row_token (apply_update u)).

(** Modelled from the spec: [Database.delete_token]. *)
Definition db_delete_token (token_id : Z) : M Database unit :=
  fun db =>
    match table db !! token_id with
    | Some _ => (Ok tt, set_table (delete token_id) db)
    | None => (Raise (NotFound token_id), db)
    end.

(** Modelled from the spec: [Database.update_token_status]
    ([setStatus(id, bool)]). *)
Definition db_update_token_status (token_id : Z) (active : bool)
  : M Database unit :=
  update_row token_id (set_row_token (with_is_active active)).

(** Modelled from the spec: [Database.update_token_usage].  The store
    contract of section 6 has one usage operation, [incrementUsage(id,
    kind)], which the code splits in this call and the counter increment;
    the spec's Credential has no field for this call to write, so it only
    checks that the credential exists. *)
Definition db_update_token_usage (token_id : Z) : M Database unit :=
  update_row token_id (fun r => r).

(** Modelled from the spec: [Database.increment_video_count]
    ([incrementUsage(id, video)]). *)
Definition db_increment_video_count (token_id : Z) : M Database unit :=
  update_row token_id
    (set_row_stats (fun s => with_video_count (video_count s + 1) s)).

(** Modelled from the spec: [Database.increment_image_count]
    ([incrementUsage(id, image)]). *)
Definition db_increment_image_count (token_id : Z) : M Database unit :=
  update_row token_id
    (set_row_stats (fun s => with_image_count (image_count s + 1) s)).

(** Modelled from the spec: [Database.increment_error_count]
    ([incrementError(id)]). *)
Definition db_increment_error_count (token_id : Z) : M Database unit :=
  update_row token_id
    (set_row_stats (fun s => with_error_count (error_count s + 1) s)).

(** Modelled from the spec: [Database.reset_error_count] ([resetError(id)]). *)
Definition db_reset_error_count (token_id : Z) : M Database unit :=
  update_row token_id (set_row_stats (with_error_count 0)).

(** Modelled from the spec: [Database.update_token_cooldown]
    ([setCooldown(id, until)]). *)
Definition db_update_token_cooldown (token_id : Z) (until : Z)
  : M Database unit :=
  update_row token_id (set_row_token (with_cooled_until (Some until))).

(** Modelled from the spec: [Database.get_token_stats] ([getStats(id)]);
    the callers test the result for None. *)
Definition db_get_token_stats (token_id : Z) : M Database (option TokenStats) :=
  gets (fun db => row_stats <$> table db !! token_id).

(** Modelled from the spec: [Database.get_admin_config]
    ([getAdminConfig()]): the configuration as it is stored now. *)
Definition db_get_admin_config : M Database AdminConfig := gets admin_config.

(** ** The exclusivity lock: [services/token_lock.py] *)

(** Modelled from the spec: the [TokenLock] class ([services/token_lock.py]
    is missing), the ExclusivityLock of sections 3 and 4.3.  The load
    balancer builds one lock table with one timeout and calls
    [is_locked(token.id)], so a record is keyed by the credential id and
    holds [acquired_at]. *)
Record TokenLock : Type := {
  lock_timeout : Z;
  locks : gmap Z Z
}.

Definition held (now : Z) (l : TokenLock) (token_id : Z) : bool :=
  match locks l !! token_id with
  | Some acquired_at => now - acquired_at <? lock_timeout l
  | None => false
  end.

(** Modelled from the spec: [TokenLock.is_locked]: true iff a record exists
    and has not exceeded its timeout. *)
Definition is_locked (now : Z) (token_id : Z) : M TokenLock bool :=
  gets (fun l => held now l token_id).

(** Modelled from the spec: [TokenLock.acquire_lock]: succeeds, with a
    record [acquired_at = now], iff no record is held for the key. *)
Definition acquire_lock (now : Z) (token_id : Z) : M TokenLock bool :=
  fun l =>
    if held now l token_id then (Ok false, l)
    else (Ok true, {| lock_timeout := lock_timeout l;
                      locks := <[token_id := now]> (locks l) |}).

(** Modelled from the spec: [TokenLock.release_lock]: removes the record if
    present. *)
Definition release_lock (token_id : Z) : M TokenLock unit :=
  modify (fun l => {| lock_timeout := lock_timeout l;
                      locks := delete token_id (locks l) |}).

(** ** [services/token_manager.py] *)

(** The claims of a decoded bearer token that [add_token] reads. *)
Record JwtProfile : Type := { profile_email : option string }.

(** A claim as the token carries it and as [datetime.fromtimestamp]
    receives it: an integer, or any other JSON value (a fraction, a string,
    null, a list), kept as its text. *)
Inductive JsonValue : Type :=
  | JInt (z : Z)
  | JOther (text : string).

Record JwtClaims : Type := {
  jwt_exp : option JsonValue;
  jwt_profile : option JwtProfile
}.

(** An HTTP response, with its JSON body seen at the type that the caller
    reads it at; [json] raises when the body does not parse. *)
Record Response (A : Type) : Type := {
  status_code : Z;
  json : Result A;
  text : string
}.
Arguments status_code {A} _.
Arguments json {A} _.
Arguments text {A} _.

(** The body of [/me]; a field is None when the key is absent. *)
Record UserInfo : Type := {
  ui_email : option string;
  ui_name : option string
}.

Record Plan : Type := {
  plan_id : option string;
  plan_title_field : option string
}.

(** One entry of the [data] array of [/backend/billing/subscriptions]. *)
Record Subscription : Type := {
  sub_plan : option Plan;
  sub_end_ts : option string
}.

(** The dict that [get_subscription_info] returns. *)
Record SubscriptionInfo : Type := {
  si_plan_type : string;
  si_plan_title : string;
  si_subscription_end : string
}.

(** The body of [/backend/project_y/invite/mine]. *)
Record InviteMine : Type := {
  im_invite_code : option string;
  im_redeemed_count : option Z;
  im_total_count : option Z
}.

(** The dict that [get_sora2_invite_code] returns; the two counts are None
    when the dict has no such key. *)
Record Sora2Info : Type := {
  s2_supported : bool;
  s2_invite_code : option string;
  s2_redeemed_count : option Z;
  s2_total_count : option Z
}.

(** [s.split("@")[0]] *)
Fixpoint before_at (s : string) : string :=
  match s with
  | EmptyString => EmptyString
  | String c s' =>
      if Ascii.eqb c "@"%char then EmptyString else String c (before_at s')
  end.

(** Truth value of a string, and [x or the empty string] for an optional string. *)
Definition nonempty (s : string) : bool := negb (String.eqb s EmptyString).

Definition or_empty (o : option string) : string :=
  match o with
  | Some s => s
  | None => EmptyString
  end.

(** [timedelta(hours=12)], in seconds. *)
Definition twelve_hours : Z := 12 * 3600.

(** [datetime.fromtimestamp(decoded.get("exp", 0)) if "exp" in decoded else
    None], with [fromtimestamp] the library call: it raises for a value
    that is out of range or not a number. *)
Definition convert_exp (fromtimestamp : JsonValue -> Result Z)
    (decoded : JwtClaims) : Result (option Z) :=
  match jwt_exp decoded with
  | Some exp =>
      match fromtimestamp exp with
      | Ok expiry_time => Ok (Some expiry_time)
      | Raise e => Raise e
      end
  | None => Ok None
  end.

Section TokenManager.

(** The world outside the process: the JWT library, the timestamp
    conversion of [datetime], the date parser and the upstream service.  A
    call that raises returns [Raise]. *)
Variable jwt_decode : string -> string + JwtClaims.
Variable fromtimestamp : JsonValue -> Result Z.
Variable parser_parse : string -> Result Z.
Variable session_get_me : string -> Result (Response UserInfo).
Variable session_get_subscriptions :
  string -> Result (Response (list Subscription)).
Variable session_get_invite_mine : string -> Result (Response InviteMine).

(** [decode_jwt]: decode without verification; any failure of the library
    becomes a ValueError. *)
Definition decode_jwt (token : string) : M Database JwtClaims :=
  match jwt_decode token with
  | inr decoded => ret decoded
  | inl e => raise (ValueError ("Invalid JWT token: " +:+ e))
  end.

(** [get_user_info]: GET [/me]; a status other than 200 is a ValueError. *)
Definition get_user_info (access_token : string) : M Database UserInfo :=
  let* response := lift (session_get_me access_token) in
  if negb (status_code response =? 200) then
    raise (ValueError ("Failed to get user info: "
                       +:+ pretty (status_code response)))
  else lift (json response).

(** [get_subscription_info]: the first subscription of the response, empty
    strings when there is none, an exception on a status other than 200. *)
Definition get_subscription_info (token : string)
  : M Database SubscriptionInfo :=
  let* response := lift (session_get_subscriptions token) in
  if status_code response =? 200 then
    let* data := lift (json response) in
    match data with
    | subscription :: _ =>
        let plan := default {| plan_id := None; plan_title_field := None |}
                            (sub_plan subscription) in
        ret {| si_plan_type := default EmptyString (plan_id plan);
               si_plan_title := default EmptyString (plan_title_field plan);
               si_subscription_end :=
                 default EmptyString (sub_end_ts subscription) |}
    | [] =>
        ret {| si_plan_type := EmptyString; si_plan_title := EmptyString;
               si_subscription_end := EmptyString |}
    end
  else
    raise (Exception ("Failed to get subscription info: "
                      +:+ pretty (status_code response))).

(** [get_sora2_invite_code]: a status other than 200 is reported as not
    supported, not raised. *)
Definition get_sora2_invite_code (access_token : string)
  : M Database Sora2Info :=
  let* response := lift (session_get_invite_mine access_token) in
  if status_code response =? 200 then
    let* data := lift (json response) in
    ret {| s2_supported := true;
           s2_invite_code := im_invite_code data;
           s2_redeemed_count := Some (default 0 (im_redeemed_count data));
           s2_total_count := Some (default 0 (im_total_count data)) |}
  else
    ret {| s2_supported := false; s2_invite_code := None;
           s2_redeemed_count := None; s2_total_count := None |}.

Definition jwt_email_of (decoded : JwtClaims) : option string :=
  match jwt_profile decoded with
  | Some profile => profile_email profile
  | None => None
  end.

(** The two [try] blocks that [add_token] and [update_existing_token]
    share, each with the local variables it leaves behind. *)
Definition subscription_block (token_value : string)
  : M Database (option string * option string * option Z) :=
  try_except
    (let* sub_info := get_subscription_info token_value in
     let plan_type := Some (si_plan_type sub_info) in
     let plan_title := Some (si_plan_title sub_info) in
     if nonempty (si_subscription_end sub_info) then
       try_except
         (let* subscription_end :=
            lift (parser_parse (si_subscription_end sub_info)) in
          ret (plan_type, plan_title, Some subscription_end))
         (fun _ => ret (plan_type, plan_title, None))
     else ret (plan_type, plan_title, None))
    (fun _ => ret (None, None, None)).

(** [update_existing_token]: lines 413 to 464. *)
Definition update_existing_token (token_id : Z) (token_value : string)
    (st rt remark : option string) : M Database (option Token) :=
  let* decoded := decode_jwt token_value in
  let* expiry_time := lift (convert_exp fromtimestamp decoded) in
  let jwt_email := jwt_email_of decoded in
  let* (email, name) :=
    try_except
      (let* user_info := get_user_info token_value in
       ret (default (or_empty jwt_email) (ui_email user_info),
            default EmptyString (ui_name user_info)))
      (fun _ =>
         let email := or_empty jwt_email in
         ret (email, if nonempty email then before_at email else EmptyString)) in
  let* (plan_type, plan_title, subscription_end) :=
    subscription_block token_value in
  db_update_token token_id
    {| u_token := Some token_value; u_st := st; u_rt := rt;
       u_remark := remark; u_expiry_time := expiry_time;
       u_plan_type := plan_type; u_plan_title := plan_title;
       u_subscription_end := subscription_end |};;
  let* updated_token := db_get_token token_id in
  ret updated_token.

(** [add_token]: lines 308 to 411. *)
Definition add_token (token_value : string) (st rt remark : option string)
    (update_if_exists : bool) : M Database (option Token) :=
  let* existing_token := db_get_token_by_value token_value in
  match existing_token with
  | Some existing =>
      if negb update_if_exists then
        raise (ValueError ("Token 已存在（邮箱: " +:+ email existing
          +:+ "）。如需更新，请先删除旧 Token 或使用更新功能。"))
      else update_existing_token (id existing) token_value st rt remark
  | None =>
      let* decoded := decode_jwt token_value in
      let* expiry_time := lift (convert_exp fromtimestamp decoded) in
      let jwt_email := jwt_email_of decoded in
      let* (email, name) :=
        try_except
          (let* user_info := get_user_info token_value in
           ret (default (or_empty jwt_email) (ui_email user_info),
                or_empty (ui_name user_info)))
          (fun _ =>
             let email := or_empty jwt_email in
             ret (email,
                  if nonempty email then before_at email else EmptyString)) in
      let* (plan_type, plan_title, subscription_end) :=
        subscription_block token_value in
      let* (sora2_supported, sora2_invite_code,
             sora2_redeemed_count, sora2_total_count) :=
        try_except
          (let* sora2_info := get_sora2_invite_code token_value in
           ret (Some (s2_supported sora2_info),
                s2_invite_code sora2_info,
                default 0 (s2_redeemed_count sora2_info),
                default 0 (s2_total_count sora2_info)))
          (fun _ => ret (None, None, 0, 0)) in
      let token :=
        {| id := 0; token := token_value; email := email; name := name;
           st := st; rt := rt; remark := remark;
           expiry_time := expiry_time; is_active := true;
           cooled_until := None;
           plan_type := plan_type; plan_title := plan_title;
           subscription_end := subscription_end;
           sora2_supported := sora2_supported;
           sora2_invite_code := sora2_invite_code;
           sora2_redeemed_count := sora2_redeemed_count;
           sora2_total_count := sora2_total_count |} in
      let* token_id := db_add_token token in
      ret (Some (with_id token_id token))
  end.

Definition delete_token (token_id : Z) : M Database unit :=
  db_delete_token token_id.

(** [update_token]: a value that does not decode, or whose [exp] does not
    convert, keeps [expiry_time] None. *)
Definition update_token (token_id : Z) (token st rt remark : option string)
  : M Database unit :=
  let* expiry_time :=
    match token with
    | Some tv =>
        if nonempty tv then
          try_except
            (let* decoded := decode_jwt tv in
             let* expiry_time := lift (convert_exp fromtimestamp decoded) in
             ret expiry_time)
            (fun _ => ret None)
        else ret None
    | None => ret None
    end in
  db_update_token token_id
    {| u_token := token; u_st := st; u_rt := rt; u_remark := remark;
       u_expiry_time := expiry_time; u_plan_type := None;
       u_plan_title := None; u_subscription_end := None |}.

End TokenManager.

(** The methods below do not call the world outside. *)

(** [get_active_tokens]: "Get all active tokens (not cooled down)". *)
Definition get_active_tokens (now : Z) : M Database (list Token) :=
  db_get_active_tokens now.

Definition get_all_tokens : M Database (list Token) := db_get_all_tokens.

Definition update_token_status (token_id : Z) (is_active : bool)
  : M Database unit :=
  db_update_token_status token_id is_active.

(** [enable_token]: "Enable a token and reset error count". *)
Definition enable_token (token_id : Z) : M Database unit :=
  db_update_token_status token_id true;;
  db_reset_error_count token_id.

(** [disable_token]: "Disable a token". *)
Definition disable_token (token_id : Z) : M Database unit :=
  db_update_token_status token_id false.

(** [record_usage]: "Record token usage". *)
Definition record_usage (token_id : Z) (is_video : bool) : M Database unit :=
  db_update_token_usage token_id;;
  if is_video then db_increment_video_count token_id
  else db_increment_image_count token_id.

(** [record_error]: "Record token error", with the ban check. *)
Definition record_error (token_id : Z) : M Database unit :=
  db_increment_error_count token_id;;
  let* stats := db_get_token_stats token_id in
  let* admin_config := db_get_admin_config in
  match stats with
  | Some stats =>
      if error_ban_threshold admin_config <=? error_count stats then
        db_update_token_status token_id false
      else ret tt
  | None => ret tt
  end.

(** [record_success]: "Record successful request (reset error count)". *)
Definition record_success (token_id : Z) : M Database unit :=
  db_reset_error_count token_id.

(** [check_and_apply_cooldown]: "Check if token should be cooled down";
    [now] is [datetime.now()]. *)
Definition check_and_apply_cooldown (now : Z) (token_id : Z)
  : M Database unit :=
  let* stats := db_get_token_stats token_id in
  let* admin_config := db_get_admin_config in
  match stats with
  | Some stats =>
      if video_cooldown_threshold admin_config <=? video_count stats then
        let cooled_until := now + twelve_hours in
        db_update_token_cooldown token_id cooled_until
      else ret tt
  | None => ret tt
  end.

(** ** [services/load_balancer.py] *)

(** [self.token_manager] (its database) and [self.token_lock]. *)
Record LoadBalancer : Type := {
  token_manager : Database;
  token_lock : TokenLock
}.

(** A call of a method of [self.token_manager] or of [self.token_lock]. *)
Definition on_token_manager {A} (m : M Database A) : M LoadBalancer A :=
  fun lb =>
    let (r, db') := m (token_manager lb) in
    (r, {| token_manager := db'; token_lock := token_lock lb |}).

Definition on_token_lock {A} (m : M TokenLock A) : M LoadBalancer A :=
  fun lb =>
    let (r, l') := m (token_lock lb) in
    (r, {| token_manager := token_manager lb; token_lock := l' |}).

(** [random.choice(seq)]: the element at a position drawn by the generator;
    IndexError on an empty sequence.  [rnd] is the generator's draw. *)
Definition random_choice {S A} (rnd : nat) (seq : list A) : M S A :=
  match seq !! (rnd `mod` length seq)%nat with
  | Some x => ret x
  | None => raise IndexError
  end.

(** The [for token in active_tokens] loop of [select_token];
    [available_tokens] is the list built so far. *)
Fixpoint available_loop (now : Z) (active_tokens available_tokens : list Token)
  : M LoadBalancer (list Token) :=
  match active_tokens with
  | [] => ret available_tokens
  | token :: rest =>
      let* locked := on_token_lock (is_locked now (id token)) in
      if negb locked then available_loop now rest (available_tokens ++ [token])
      else available_loop now rest available_tokens
  end.

(** [select_token]: "Select a token using random load balancing". *)
Definition select_token (now : Z) (rnd : nat) (for_image_generation : bool)
  : M LoadBalancer (option Token) :=
  let* active_tokens := on_token_manager (get_active_tokens now) in
  match active_tokens with
  | [] => ret None
  | _ :: _ =>
      if for_image_generation then
        let* available_tokens := available_loop now active_tokens [] in
        match available_tokens with
        | [] => ret None
        | _ :: _ =>
            let* chosen := random_choice rnd available_tokens in
            ret (Some chosen)
        end
      else
        let* chosen := random_choice rnd active_tokens in
        ret (Some chosen)
  end.

(** ** The scenario of section 8: A active and unlocked, B active and
    locked for image generation, C disabled. *)
Module Scenario.

Definition blank (secret : string) (active : bool) : Token :=
  {| id := 0; token := secret; email := EmptyString; name := EmptyString;
     st := None; rt := None; remark := None; expiry_time := None;
     is_active := active; cooled_until := None;
     plan_type := None; plan_title := None; subscription_end := None;
     sora2_supported := None; sora2_invite_code := None;
     sora2_redeemed_count := 0; sora2_total_count := 0 |}.

Definition row (secret : string) (active : bool) : Row :=
  {| row_token := blank secret active; row_stats := new_stats |}.

Definition config : AdminConfig :=
  {| error_ban_threshold := 3; video_cooldown_threshold := 2;
     cooldown_duration := 43200; lock_timeout_config := 300 |}.

Definition pool : Database :=
  {| table := <[1 := row "A" true]> (<[2 := row "B" true]>
                (<[3 := row "C" false]> ∅));
     admin_config := config |}.

(** B was locked at time 100; the clock reads 150 and the timeout is 300. *)
Definition lb : LoadBalancer :=
  {| token_manager := pool;
     token_lock := {| lock_timeout := 300; locks := {[ 2 := 100 ]} |} |}.

(** The same pool with A locked as well, and a pool without credentials. *)
Definition lb_all_locked : LoadBalancer :=
  {| token_manager := pool;
     token_lock := {| lock_timeout := 300;
                      locks := <[1 := 120]> {[ 2 := 100 ]} |} |}.

Definition lb_empty : LoadBalancer :=
  {| token_manager := {| table := ∅; admin_config := config |};
     token_lock := {| lock_timeout := 300; locks := ∅ |} |}.

(** The pool after two errors on A, and after three errors on A recorded
    while the threshold was higher than 3. *)
Definition errors (n : Z) (r : Row) : Row :=
  set_row_stats (with_error_count n) r.

Definition pool_two_errors : Database :=
  {| table := <[1 := errors 2 (row "A" true)]> (table pool);
     admin_config := config |}.

Definition pool_three_errors : Database :=
  {| table := <[1 := errors 3 (row "A" true)]> (table pool);
     admin_config := config |}.

(** The pool after one video made with A; the threshold is 2. *)
Definition pool_one_video : Database :=
  {| table := <[1 := set_row_stats (with_video_count 1) (row "A" true)]>
                (table pool);
     admin_config := config |}.

(** The world outside: a token library that decodes nothing or
    everything, and an upstream service that cannot be reached. *)
Definition jwt_rejects : string -> string + JwtClaims :=
  fun _ => inl "Not enough segments"%string.

Definition jwt_accepts : string -> string + JwtClaims :=
  fun _ => inr {| jwt_exp := Some (JInt 2000);
                  jwt_profile :=
                    Some {| profile_email := Some "d@example.com"%string |} |}.

(** A token library that decodes every value to an [exp] far out of
    range. *)
Definition jwt_far_exp : string -> string + JwtClaims :=
  fun _ => inr {| jwt_exp := Some (JInt 1000000000000);
                  jwt_profile := None |}.

(** [datetime.fromtimestamp] on a clock without time zone: the years 1 to
    9999, and numbers only. *)
Definition fromtimestamp : JsonValue -> Result Z :=
  fun exp =>
    match exp with
    | JInt z =>
        if (-62135596800 <=? z) && (z <=? 253402300799) then Ok z
        else Raise (ValueError "year is out of range")
    | JOther _ =>
        Raise (Exception "an integer is required")
    end.

Definition parse_fails : string -> Result Z :=
  fun _ => Raise (ValueError "Unknown string format").

Definition unreachable {A} : string -> Result (Response A) :=
  fun _ => Raise (Exception "Connection timed out").

Definition A : Token := with_id 1 (blank "A" true).
Definition B : Token := with_id 2 (blank "B" true).
Definition C : Token := with_id 3 (blank "C" false).

End Scenario.

(** ** Specification-side definitions *)

(** The eligible set in the words of section 4.4 and of section 3: the
    stored credentials that are active, not cooled, and, for the class that
    requires exclusivity, not locked. *)
Definition eligible (now : Z) (for_image_generation : bool) (lb : LoadBalancer)
  : list Token :=
  List.filter
    (fun t => selectable now t &&
              (negb for_image_generation || negb (held now (token_lock lb) (id t))))
    (all_tokens (token_manager lb)).

(** The row that [record_error] leaves for a row [r], under a threshold. *)
Definition after_error (threshold : Z) (r : Row) : Row :=
  let r1 := set_row_stats (fun s => with_error_count (error_count s + 1) s) r in
  if threshold <=? error_count (row_stats r1)
  then set_row_token (with_is_active false) r1
  else r1.

(** The element that a draw [rnd] picks. *)
Definition choose {A} (rnd : nat) (l : list A) : option A :=
  l !! (rnd `mod` length l)%nat.

(** ** Further methods of [services/token_manager.py] *)

(** The body of [/api/auth/session], as [st_to_at] reads it. *)
Record SessionUser : Type := { su_email : option string }.

Record SessionBody : Type := {
  sb_access_token : option string;
  sb_user : option SessionUser;
  sb_expires : option string
}.

(** The dict that [st_to_at] returns. *)
Record StToAt : Type := {
  sa_access_token : option string;
  sa_email : option string;
  sa_expires : option string
}.

(** The body of [/oauth/token], and the dict that [rt_to_at] returns. *)
Record OauthBody : Type := {
  ob_access_token : option string;
  ob_refresh_token : option string;
  ob_expires_in : option Z
}.

Record RtToAt : Type := {
  ra_access_token : option string;
  ra_refresh_token : option string;
  ra_expires_in : option Z
}.

(** The body of [/backend/project_y/invite/accept], and the dict that
    [activate_sora2_invite] returns. *)
Record InviteAccept : Type := {
  ia_success : option bool;
  ia_already_accepted : option bool
}.

Record Activation : Type := {
  act_success : bool;
  act_already_accepted : bool
}.

(** The two shapes of the dict that [test_token] returns. *)
Inductive TestResult : Type :=
  | TestInvalid (message : string)
  | TestValid (message : string) (email username : option string)
      (sora2_supported : bool) (sora2_invite_code : option string)
      (sora2_redeemed_count sora2_total_count : Z).

Definition valid (r : TestResult) : bool :=
  match r with
  | TestInvalid _ => false
  | TestValid _ _ _ _ _ _ _ => true
  end.

(** [str(e)].  The text of the store's NotFound is not known; it is left
    empty. *)
Definition exc_str (e : PyExc) : string :=
  match e with
  | ValueError msg => msg
  | Exception msg => msg
  | IndexError => "Cannot choose from an empty sequence"
  | NotFound _ => EmptyString
  end.

Definition with_sora2 (supported : option bool) (invite_code : option string)
    (redeemed_count total_count : Z) (t : Token) : Token :=
  {| id := id t; token := token t; email := email t; name := name t;
     st := st t; rt := rt t; remark := remark t;
     expiry_time := expiry_time t; is_active := is_active t;
     cooled_until := cooled_until t; plan_type := plan_type t;
     plan_title := plan_title t; subscription_end := subscription_end t;
     sora2_supported := supported;
     sora2_invite_code := invite_code;
     sora2_redeemed_count := redeemed_count;
     sora2_total_count := total_count |}.

(** Modelled from the spec: [Database.update_token_sora2]
    ([core/database.py] is missing): [update(id, fields)] of section 6 on
    the four Sora2 columns that [test_token] passes. *)
Definition db_update_token_sora2 (token_id : Z) (supported : bool)
    (invite_code : option string) (redeemed_count total_count : Z)
  : M Database unit :=
  update_row token_id
    (set_row_token
       (with_sora2 (Some supported) invite_code redeemed_count total_count)).

Section TokenManagerUpstream.

(** The upstream service, as in the section above, the three further
    endpoints, and the [username] key of the [/me] body, which [UserInfo]
    does not carry. *)
Variable session_get_me : string -> Result (Response UserInfo).
Variable session_get_invite_mine : string -> Result (Response InviteMine).
Variable session_post_invite_accept :
  string -> string -> string -> Result (Response InviteAccept).
Variable session_get_auth_session : string -> Result (Response SessionBody).
Variable session_post_oauth_token : string -> Result (Response OauthBody).
Variable ui_username : UserInfo -> option string.

(** [activate_sora2_invite]; [device_id] is the [uuid.uuid4()] draw. *)
Definition activate_sora2_invite (device_id : string)
    (access_token invite_code : string) : M Database Activation :=
  let* response :=
    lift (session_post_invite_accept access_token device_id invite_code) in
  if status_code response =? 200 then
    let* data := lift (json response) in
    ret {| act_success := default false (ia_success data);
           act_already_accepted := default false (ia_already_accepted data) |}
  else
    raise (Exception ("Failed to activate Sora2: "
                      +:+ pretty (status_code response))).

(** [st_to_at]: "Convert Session Token to Access Token". *)
Definition st_to_at (session_token : string) : M Database StToAt :=
  let* response := lift (session_get_auth_session session_token) in
  if negb (status_code response =? 200) then
    raise (ValueError ("Failed to convert ST to AT: "
                       +:+ pretty (status_code response)))
  else
    let* data := lift (json response) in
    ret {| sa_access_token := sb_access_token data;
           sa_email := match sb_user data with
                       | Some user => su_email user
                       | None => None
                       end;
           sa_expires := sb_expires data |}.

(** [rt_to_at]: "Convert Refresh Token to Access Token". *)
Definition rt_to_at (refresh_token : string) : M Database RtToAt :=
  let* response := lift (session_post_oauth_token refresh_token) in
  if negb (status_code response =? 200) then
    raise (ValueError ("Failed to convert RT to AT: "
                       +:+ pretty (status_code response)
                       +:+ " - " +:+ text response))
  else
    let* data := lift (json response) in
    ret {| ra_access_token := ob_access_token data;
           ra_refresh_token := ob_refresh_token data;
           ra_expires_in := ob_expires_in data |}.

(** [test_token]: "Test if a token is valid by calling Sora API and refresh
    Sora2 info". *)
Definition test_token (token_id : Z) : M Database TestResult :=
  let* token_data := db_get_token token_id in
  match token_data with
  | None => ret (TestInvalid "Token not found")
  | Some token_data =>
      try_except
        (let* user_info := get_user_info session_get_me (token token_data) in
         let* sora2_info :=
           get_sora2_invite_code session_get_invite_mine (token token_data) in
         let sora2_supported := s2_supported sora2_info in
         let sora2_invite_code := s2_invite_code sora2_info in
         let sora2_redeemed_count := default 0 (s2_redeemed_count sora2_info) in
         let sora2_total_count := default 0 (s2_total_count sora2_info) in
         db_update_token_sora2 token_id sora2_supported sora2_invite_code
           sora2_redeemed_count sora2_total_count;;
         ret (TestValid "Token is valid" (ui_email user_info)
                (ui_username user_info) sora2_supported sora2_invite_code
                sora2_redeemed_count sora2_total_count))
        (fun e => ret (TestInvalid ("Token is invalid: " +:+ exc_str e)))
  end.

End TokenManagerUpstream.

(** ** [LoadBalancer.__init__] *)

(** A load balancer over a token manager, with a lock table of its own
    whose timeout is [config.image_timeout]. *)
Definition new_load_balancer (token_manager : Database) (image_timeout : Z)
  : LoadBalancer :=
  {| token_manager := token_manager;
     token_lock := {| lock_timeout := image_timeout; locks := ∅ |} |}.

(** ** Sequences of calls *)

(** [n] calls of [record_error] for one credential, one after the other. *)
Fixpoint record_errors (n : nat) (token_id : Z) : M Database unit :=
  match n with
  | O => ret tt
  | S n' => record_error token_id;; record_errors n' token_id
  end.

(** A call of one of the health and status methods of [TokenManager]. *)
Inductive HealthCall : Type :=
  | CallRecordUsage (token_id : Z) (is_video : bool)
  | CallRecordError (token_id : Z)
  | CallRecordSuccess (token_id : Z)
  | CallCheckCooldown (now : Z) (token_id : Z)
  | CallEnable (token_id : Z)
  | CallDisable (token_id : Z)
  | CallUpdateStatus (token_id : Z) (is_active : bool).

Definition run_call (c : HealthCall) : M Database unit :=
  match c with
  | CallRecordUsage token_id is_video => record_usage token_id is_video
  | CallRecordError token_id => record_error token_id
  | CallRecordSuccess token_id => record_success token_id
  | CallCheckCooldown now token_id => check_and_apply_cooldown now token_id
  | CallEnable token_id => enable_token token_id
  | CallDisable token_id => disable_token token_id
  | CallUpdateStatus token_id is_active =>
      update_token_status token_id is_active
  end.

(** The store after a sequence of calls made by independent callers: a
    call that raises ends alone, with the writes it had made. *)
Definition run_calls (calls : list HealthCall) (db : Database) : Database :=
  foldl (fun db c => snd (run_call c db)) db calls.

(** Calls that can set the status to active. *)
Definition activates (c : HealthCall) : bool :=
  match c with
  | CallEnable _ => true
  | CallUpdateStatus _ is_active => is_active
  | _ => false
  end.

(** Calls that count a video. *)
Definition counts_video (c : HealthCall) : bool :=
  match c with
  | CallRecordUsage _ is_video => is_video
  | _ => false
  end.

(** What no health call changes in a stored credential: everything but the
    status, the cooldown and the counters, and the usage counters do not
    go down. *)
Definition row_kept (r r' : Row) : Prop :=
  with_cooled_until None (with_is_active true (row_token r'))
  = with_cooled_until None (with_is_active true (row_token r))
  /\ image_count (row_stats r) <= image_count (row_stats r')
  /\ video_count (row_stats r) <= video_count (row_stats r').

(** A disabled credential stays disabled. *)
Definition row_not_revived (r r' : Row) : Prop :=
  is_active (row_token r) = false -> is_active (row_token r') = false.

(** The video counter is as it was. *)
Definition row_same_videos (r r' : Row) : Prop :=
  video_count (row_stats r') = video_count (row_stats r).

(** Two stores hold the same ids and the same configuration, and their rows
    are related by [R]. *)
Definition db_related (R : Row -> Row -> Prop) (db db' : Database) : Prop :=
  admin_config db' = admin_config db
  /\ forall k,
      match table db !! k, table db' !! k with
      | Some r, Some r' => R r r'
      | None, None => True
      | _, _ => False
      end.

(** A computation whose writes keep [db_related R]. *)
Definition keeps {A} (R : Row -> Row -> Prop) (m : M Database A) : Prop :=
  forall db, db_related R db (snd (m db)).

(** Whether a string contains the character "@". *)
Fixpoint has_at (s : string) : bool :=
  match s with
  | EmptyString => false
  | String c s' => Ascii.eqb c "@"%char || has_at s'
  end.

(** What the three blocks of [add_token] compute, read off the results of
    the three calls. *)
Definition user_fields (jwt_email : option string) (r : Result UserInfo)
  : string * string :=
  match r with
  | Ok user_info =>
      (default (or_empty jwt_email) (ui_email user_info),
       or_empty (ui_name user_info))
  | Raise _ =>
      let email := or_empty jwt_email in
      (email, if nonempty email then before_at email else EmptyString)
  end.

Definition subscription_fields (parser_parse : string -> Result Z)
    (r : Result SubscriptionInfo)
  : option string * option string * option Z :=
  match r with
  | Ok sub_info =>
      (Some (si_plan_type sub_info), Some (si_plan_title sub_info),
       if nonempty (si_subscription_end sub_info) then
         match parser_parse (si_subscription_end sub_info) with
         | Ok subscription_end => Some subscription_end
         | Raise _ => None
         end
       else None)
  | Raise _ => (None, None, None)
  end.

Definition sora2_fields (r : Result Sora2Info)
  : option bool * option string * Z * Z :=
  match r with
  | Ok sora2_info =>
      (Some (s2_supported sora2_info), s2_invite_code sora2_info,
       default 0 (s2_redeemed_count sora2_info),
       default 0 (s2_total_count sora2_info))
  | Raise _ => (None, None, 0, 0)
  end.

(** * Proofs *)

(** ** Lists and draws *)

Lemma choose_nil {A} rnd : choose rnd (@nil A) = None.
Proof. reflexivity. Qed.

Lemma choose_cons {A} rnd (x : A) l : is_Some (choose rnd (x :: l)).
Proof.
  unfold choose. apply lookup_lt_is_Some.
  apply Nat.mod_upper_bound. simpl. lia.
Qed.

Lemma choose_elem_of {A} rnd (l : list A) x : choose rnd l = Some x -> x ∈ l.
Proof. unfold choose. intros H. apply list_elem_of_lookup. eauto. Qed.

Lemma elem_of_choose {A} (l : list A) x : x ∈ l -> exists rnd, choose rnd l = Some x.
Proof.
  intros H. apply list_elem_of_lookup in H as [i Hi].
  exists i. unfold choose.
  rewrite Nat.mod_small; [done|]. by eapply lookup_lt_Some.
Qed.

Lemma random_choice_choose {S A} rnd (l : list A) (s : S) x :
  choose rnd l = Some x -> random_choice rnd l s = (Ok x, s).
Proof. unfold random_choice, choose. by intros ->. Qed.

Lemma filter_filter_andb {A} (f g : A -> bool) l :
  List.filter g (List.filter f l) = List.filter (fun x => f x && g x) l.
Proof.
  induction l as [|x l IH]; [done|]. simpl.
  destruct (f x); simpl; [destruct (g x)|]; by rewrite ?IH.
Qed.

Lemma filter_ext_bool {A} (f g : A -> bool) l :
  (forall x, f x = g x) -> List.filter f l = List.filter g l.
Proof. intros H. induction l as [|x l IH]; [done|]. simpl. by rewrite H, IH. Qed.

Lemma elem_of_filter_bool {A} (f : A -> bool) l x :
  x ∈ List.filter f l <-> x ∈ l /\ f x = true.
Proof. rewrite !list_elem_of_In. apply filter_In. Qed.

(** ** The store *)

Lemma elem_of_all_tokens db t :
  t ∈ all_tokens db <->
  exists k r, table db !! k = Some r /\ t = token_of_row (k, r).
Proof.
  unfold all_tokens. rewrite list_elem_of_fmap. split.
  - intros [[k r] [-> H]]. apply elem_of_map_to_list in H. eauto.
  - intros (k & r & H & ->). exists (k, r). split; [done|].
    by apply elem_of_map_to_list.
Qed.

Lemma id_token_of_row k r : id (token_of_row (k, r)) = k.
Proof. reflexivity. Qed.

Lemma is_active_token_of_row k r :
  is_active (token_of_row (k, r)) = is_active (row_token r).
Proof. reflexivity. Qed.

Lemma selectable_token_of_row now k r :
  selectable now (token_of_row (k, r)) = selectable now (row_token r).
Proof. reflexivity. Qed.

(** ** [select_token] *)

Lemma available_loop_filter now lb active_tokens available_tokens :
  available_loop now active_tokens available_tokens lb =
  (Ok (available_tokens ++
       List.filter (fun t => negb (held now (token_lock lb) (id t)))
                   active_tokens), lb).
Proof.
  revert available_tokens.
  induction active_tokens as [|t rest IH]; intros acc; simpl.
  - unfold ret. by rewrite app_nil_r.
  - unfold bind, on_token_lock, is_locked, gets. simpl.
    destruct lb as [tm tl]; simpl in *.
    destruct (held now tl (id t)); simpl; rewrite IH; simpl; [done|].
    by rewrite <- app_assoc.
Qed.

(** [select_token] in closed form: it draws from the eligible set and
    leaves the pool and the lock table as they were. *)
Lemma select_token_choose now rnd for_image_generation lb :
  select_token now rnd for_image_generation lb =
  (Ok (choose rnd (eligible now for_image_generation lb)), lb).
Proof.
  unfold select_token, eligible, bind at 1.
  unfold on_token_manager, get_active_tokens, db_get_active_tokens, gets.
  destruct lb as [tm tl]; simpl.
  destruct for_image_generation; simpl.
  - rewrite <- filter_filter_andb.
    destruct (List.filter (selectable now) (all_tokens tm)) as [|a l] eqn:Ha;
      [done|].
    unfold bind at 1. rewrite available_loop_filter. simpl token_lock.
    rewrite app_nil_l.
    destruct (List.filter _ (a :: l)) as [|b l'] eqn:Hb; [done|].
    destruct (choose_cons rnd b l') as [x Hx].
    unfold bind. rewrite (random_choice_choose _ _ _ _ Hx). by rewrite Hx.
  - rewrite (filter_ext_bool (fun t => selectable now t && true)
                               (selectable now)); last first.
    { intros x. by rewrite andb_true_r. }
    destruct (List.filter (selectable now) (all_tokens tm)) as [|a l] eqn:Ha;
      [done|].
    destruct (choose_cons rnd a l) as [x Hx].
    unfold bind. rewrite (random_choice_choose _ _ _ _ Hx). by rewrite Hx.
Qed.

Lemma elem_of_eligible now for_image_generation lb t :
  t ∈ eligible now for_image_generation lb <->
  (exists k r, table (token_manager lb) !! k = Some r /\ t = token_of_row (k, r))
  /\ selectable now t = true
  /\ (for_image_generation = true -> held now (token_lock lb) (id t) = false).
Proof.
  unfold eligible. rewrite elem_of_filter_bool, elem_of_all_tokens.
  rewrite andb_true_iff, orb_true_iff, !negb_true_iff.
  destruct for_image_generation; intuition congruence.
Qed.

Lemma select_token_elem_of now rnd for_image_generation lb t :
  fst (select_token now rnd for_image_generation lb) = Ok (Some t) ->
  t ∈ eligible now for_image_generation lb.
Proof.
  rewrite select_token_choose. simpl. intros [= H]. by eapply choose_elem_of.
Qed.

Lemma elem_of_select_token now for_image_generation lb t :
  t ∈ eligible now for_image_generation lb ->
  exists rnd, select_token now rnd for_image_generation lb = (Ok (Some t), lb).
Proof.
  intros H. apply elem_of_choose in H as [rnd H]. exists rnd.
  by rewrite select_token_choose, H.
Qed.

(** C1 (as amended): the load balancer has [select_token] only.  For image
    generation it returns a credential that is active, not cooled and not
    locked, or None when there is none; it acquires no lock and leaves the
    lock table and the pool as they were, so a second call from the state it
    leaves makes the same choice again. *)
Theorem select_token_acquires_nothing now rnd lb :
  exists r,
    select_token now rnd true lb = (Ok r, lb)
    /\ match r with
       | Some t => t ∈ eligible now true lb
                   /\ held now (token_lock lb) (id t) = false
       | None => eligible now true lb = []
       end
    /\ select_token now rnd true (snd (select_token now rnd true lb))
       = (Ok r, lb).
Proof.
  exists (choose rnd (eligible now true lb)).
  rewrite !select_token_choose. simpl.
  split; [done|]. split; [|done].
  destruct (choose rnd (eligible now true lb)) as [t|] eqn:Hc.
  - apply choose_elem_of in Hc. split; [done|].
    apply elem_of_eligible in Hc as (_ & _ & Hl). by apply Hl.
  - destruct (eligible now true lb) as [|a l]; [done|].
    destruct (choose_cons rnd a l) as [x Hx]. congruence.
Qed.

(** C1, counterexample: in the pool of section 8 two callers select for
    image generation one after the other.  Both get A, A is still unlocked
    after both selections, and of the two [acquire_lock] calls that follow
    only the first succeeds. *)
Lemma select_token_not_atomic :
  let first := select_token 150 0 true Scenario.lb in
  let second := select_token 150 0 true (snd first) in
  let lock1 := acquire_lock 150 1 (token_lock (snd second)) in
  let lock2 := acquire_lock 150 1 (snd lock1) in
  fst first = Ok (Some Scenario.A)
  /\ fst second = Ok (Some Scenario.A)
  /\ held 150 (token_lock (snd second)) (id Scenario.A) = false
  /\ fst lock1 = Ok true
  /\ fst lock2 = Ok false.
Proof. vm_compute. repeat split; reflexivity. Qed.

(** C4: a stored credential whose image lock is held is never the result of
    [select_token] for image generation, yet, when it is active and not
    cooled, it is a possible result for video generation, locked or not; a
    stored
    credential that is disabled is never the result for either class.  A
    stored credential that is active, not cooled and not locked is a
    possible result for image generation; while there is such a credential
    every draw returns one, for either class; and whatever is returned is a
    stored credential that is active and not cooled and, for image
    generation, not locked. *)
Theorem select_token_lock_and_status now lb k r :
  table (token_manager lb) !! k = Some r ->
  (held now (token_lock lb) k = true ->
   forall rnd t, fst (select_token now rnd true lb) = Ok (Some t) -> id t <> k)
  /\ (selectable now (row_token r) = true ->
      exists rnd,
        select_token now rnd false lb = (Ok (Some (token_of_row (k, r))), lb))
  /\ (is_active (row_token r) = false ->
      forall rnd for_image_generation t,
        fst (select_token now rnd for_image_generation lb) = Ok (Some t) ->
        id t <> k)
  /\ (held now (token_lock lb) k = false ->
      selectable now (row_token r) = true ->
      exists rnd,
        select_token now rnd true lb = (Ok (Some (token_of_row (k, r))), lb))
  /\ (selectable now (row_token r) = true ->
      forall rnd for_image_generation,
        (for_image_generation = true -> held now (token_lock lb) k = false) ->
        exists t,
          select_token now rnd for_image_generation lb = (Ok (Some t), lb))
  /\ (forall rnd for_image_generation t,
        fst (select_token now rnd for_image_generation lb) = Ok (Some t) ->
        exists k' r',
          table (token_manager lb) !! k' = Some r'
          /\ t = token_of_row (k', r')
          /\ selectable now (row_token r') = true
          /\ (for_image_generation = true ->
              held now (token_lock lb) k' = false)).
Proof.
  intros Hk. split; [|split; [|split; [|split; [|split]]]].
  - intros Hheld rnd t Hsel Heq.
    apply select_token_elem_of, elem_of_eligible in Hsel as (_ & _ & Hl).
    specialize (Hl eq_refl). congruence.
  - intros Hs. apply elem_of_select_token, elem_of_eligible.
    split; [eauto|]. split; [done|]. discriminate.
  - intros Hoff rnd b t Hsel Heq.
    apply select_token_elem_of, elem_of_eligible in Hsel
      as ((k' & r' & Hk' & ->) & Hs & _).
    rewrite id_token_of_row in Heq. subst k'.
    rewrite Hk in Hk'. injection Hk' as <-.
    rewrite selectable_token_of_row in Hs. unfold selectable in Hs.
    rewrite Hoff in Hs. discriminate.
  - intros Hfree Hs. apply elem_of_select_token, elem_of_eligible.
    split; [eauto|]. split; [done|]. by intros _.
  - intros Hs rnd b Hfree. rewrite select_token_choose.
    assert (Hin : token_of_row (k, r) ∈ eligible now b lb).
    { apply elem_of_eligible. split; [eauto|]. split; [done|exact Hfree]. }
    destruct (eligible now b lb) as [|a l]; [by apply elem_of_nil in Hin|].
    destruct (choose_cons rnd a l) as [t Ht]. exists t. by rewrite Ht.
  - intros rnd b t Hsel.
    apply select_token_elem_of, elem_of_eligible in Hsel
      as ((k' & r' & Hk' & ->) & Hs & Hl).
    exists k', r'. split; [done|]. split; [done|]. split; [done|exact Hl].
Qed.

(** The ids of the pool of section 8. *)
Lemma scenario_pool_ids k r :
  table Scenario.pool !! k = Some r ->
  (k = 1 /\ r = Scenario.row "A" true)
  \/ (k = 2 /\ r = Scenario.row "B" true)
  \/ (k = 3 /\ r = Scenario.row "C" false).
Proof.
  unfold Scenario.pool. simpl. intros H.
  destruct (decide (k = 1)) as [->|H1].
  { rewrite lookup_insert_eq in H. injection H as <-. by left. }
  rewrite lookup_insert_ne in H by done.
  destruct (decide (k = 2)) as [->|H2].
  { rewrite lookup_insert_eq in H. injection H as <-. right. by left. }
  rewrite lookup_insert_ne in H by done.
  destruct (decide (k = 3)) as [->|H3].
  { rewrite lookup_insert_eq in H. injection H as <-. right. by right. }
  rewrite lookup_insert_ne in H by done. by rewrite lookup_empty in H.
Qed.

(** C4, at the scenario of section 8 (A active and unlocked, B active and
    locked for image generation, C disabled): for image generation every
    draw returns A; for video generation every draw returns A or B, and
    both are possible; C is never returned. *)
Lemma select_token_lock_and_status_witness :
  (forall rnd,
     select_token 150 rnd true Scenario.lb
     = (Ok (Some Scenario.A), Scenario.lb))
  /\ (forall rnd,
        select_token 150 rnd false Scenario.lb
        = (Ok (Some Scenario.A), Scenario.lb)
        \/ select_token 150 rnd false Scenario.lb
           = (Ok (Some Scenario.B), Scenario.lb))
  /\ (exists rnd,
        select_token 150 rnd false Scenario.lb
        = (Ok (Some Scenario.A), Scenario.lb))
  /\ (exists rnd,
        select_token 150 rnd false Scenario.lb
        = (Ok (Some Scenario.B), Scenario.lb))
  /\ (forall rnd for_image_generation t,
        fst (select_token 150 rnd for_image_generation Scenario.lb)
        = Ok (Some t) -> id t <> 3).
Proof.
  pose proof (select_token_lock_and_status 150 Scenario.lb 1
                (Scenario.row "A" true) eq_refl)
    as (_ & HA2 & _ & HA4 & HA5 & HA6).
  pose proof (select_token_lock_and_status 150 Scenario.lb 2
                (Scenario.row "B" true) eq_refl) as (HB1 & HB2 & _).
  pose proof (select_token_lock_and_status 150 Scenario.lb 3
                (Scenario.row "C" false) eq_refl) as (_ & _ & HC3 & _).
  split; [|split; [|split; [|split]]].
  - intros rnd.
    destruct (HA5 eq_refl rnd true (fun _ => eq_refl)) as [t Ht].
    rewrite Ht. do 2 f_equal. f_equal.
    destruct (HA6 rnd true t) as (k' & r' & Hk' & -> & Hs & Hl);
      [by rewrite Ht|].
    specialize (Hl eq_refl).
    apply scenario_pool_ids in Hk' as [[-> ->]|[[-> ->]|[-> ->]]];
      [reflexivity|discriminate Hl|discriminate Hs].
  - intros rnd.
    destruct (HA5 eq_refl rnd false) as [t Ht]; [discriminate|].
    rewrite Ht.
    destruct (HA6 rnd false t) as (k' & r' & Hk' & -> & Hs & _);
      [by rewrite Ht|].
    apply scenario_pool_ids in Hk' as [[-> ->]|[[-> ->]|[-> ->]]];
      [by left|by right|discriminate Hs].
  - exact (HA2 eq_refl).
  - exact (HB2 eq_refl).
  - exact (HC3 eq_refl).
Defined.

(** The scenario of section 8 in full: for image generation every draw
    returns A; for video generation every draw returns A or B. *)
Example scenario_select_image rnd :
  select_token 150 rnd true Scenario.lb = (Ok (Some Scenario.A), Scenario.lb).
Proof.
  rewrite select_token_choose.
  replace (eligible 150 true Scenario.lb) with [Scenario.A]
    by (vm_compute; reflexivity).
  unfold choose. simpl length. by rewrite Nat.mod_1_r.
Qed.

Example scenario_select_video rnd :
  select_token 150 rnd false Scenario.lb = (Ok (Some Scenario.A), Scenario.lb)
  \/ select_token 150 rnd false Scenario.lb
     = (Ok (Some Scenario.B), Scenario.lb).
Proof.
  rewrite select_token_choose.
  replace (eligible 150 false Scenario.lb) with [Scenario.B; Scenario.A]
    by (vm_compute; reflexivity).
  destruct (choose rnd [Scenario.B; Scenario.A]) as [t|] eqn:Hc.
  - apply choose_elem_of in Hc.
    apply elem_of_cons in Hc as [-> | Hc]; [by right|].
    apply list_elem_of_singleton in Hc as ->. by left.
  - destruct (choose_cons rnd Scenario.B [Scenario.A]) as [x Hx]. congruence.
Qed.

(** C6: when no credential is eligible, [select_token] returns None and
    raises nothing: for either class when the eligible set is empty, in
    particular when there is no active credential at all, and for image
    generation when every active credential is locked. *)
Theorem select_token_exhausted now rnd lb :
  (forall for_image_generation,
     eligible now for_image_generation lb = [] ->
     select_token now rnd for_image_generation lb = (Ok None, lb))
  /\ (forall for_image_generation,
        fst (get_active_tokens now (token_manager lb)) = Ok [] ->
        select_token now rnd for_image_generation lb = (Ok None, lb))
  /\ ((forall t active_tokens,
         fst (get_active_tokens now (token_manager lb)) = Ok active_tokens ->
         t ∈ active_tokens -> held now (token_lock lb) (id t) = true) ->
      select_token now rnd true lb = (Ok None, lb)).
Proof.
  repeat split.
  - intros b H. by rewrite select_token_choose, H.
  - intros b H. rewrite select_token_choose.
    unfold get_active_tokens, db_get_active_tokens, gets in H. simpl in H.
    injection H as H. unfold eligible.
    rewrite <- filter_filter_andb, H. done.
  - intros H. rewrite select_token_choose.
    destruct (eligible now true lb) as [|t l] eqn:He; [done|].
    assert (Ht : t ∈ eligible now true lb) by (rewrite He; left).
    unfold eligible in Ht. rewrite <- filter_filter_andb in Ht.
    apply elem_of_filter_bool in Ht as [Ht Hl].
    rewrite (H t _ eq_refl Ht) in Hl. discriminate.
Qed.

(** C6, at two pools: every active credential locked, and no credential. *)
Lemma select_token_exhausted_witness :
  select_token 150 0 true Scenario.lb_all_locked
  = (Ok None, Scenario.lb_all_locked)
  /\ select_token 150 0 false Scenario.lb_empty = (Ok None, Scenario.lb_empty)
  /\ select_token 150 0 true Scenario.lb_empty = (Ok None, Scenario.lb_empty).
Proof.
  split; [|split].
  - apply (proj2 (proj2 (select_token_exhausted 150 0 Scenario.lb_all_locked))).
    intros t active_tokens H Ht. vm_compute in H. injection H as <-.
    repeat (apply elem_of_cons in Ht as [-> | Ht]; [reflexivity|]).
    by apply elem_of_nil in Ht.
  - apply (proj1 (proj2 (select_token_exhausted 150 0 Scenario.lb_empty))).
    reflexivity.
  - apply (proj1 (select_token_exhausted 150 0 Scenario.lb_empty)).
    reflexivity.
Defined.

(** ** The health tracker: errors, usage, cooldown *)

Lemma update_row_Some token_id f db r :
  table db !! token_id = Some r ->
  update_row token_id f db = (Ok tt, set_table (<[token_id := f r]>) db).
Proof. unfold update_row. by intros ->. Qed.

Lemma update_row_None token_id f db :
  table db !! token_id = None ->
  update_row token_id f db = (Raise (NotFound token_id), db).
Proof. unfold update_row. by intros ->. Qed.

Lemma lookup_set_table_insert token_id r db :
  table (set_table (<[token_id := r]>) db) !! token_id = Some r.
Proof. simpl. apply lookup_insert_eq. Qed.

Lemma set_table_insert_insert token_id r r' db :
  set_table (<[token_id := r']>) (set_table (<[token_id := r]>) db)
  = set_table (<[token_id := r']>) db.
Proof. unfold set_table. simpl. by rewrite insert_insert_eq. Qed.

Lemma set_table_insert_id token_id r db :
  table db !! token_id = Some r -> set_table (<[token_id := r]>) db = db.
Proof.
  intros H. destruct db as [t c]. unfold set_table. simpl in *.
  by rewrite insert_id.
Qed.

(** Two updates of one row in sequence are one update. *)
Lemma update_row_twice token_id f g db r :
  table db !! token_id = Some r ->
  (update_row token_id f;; update_row token_id g) db
  = (Ok tt, set_table (<[token_id := g (f r)]>) db).
Proof.
  intros H. unfold bind. rewrite (update_row_Some _ _ _ _ H).
  rewrite (update_row_Some _ _ _ _ (lookup_set_table_insert _ _ _)).
  by rewrite set_table_insert_insert.
Qed.

Lemma record_error_run token_id db r :
  table db !! token_id = Some r ->
  record_error token_id db
  = (Ok tt,
     set_table
       (<[token_id := after_error (error_ban_threshold (admin_config db)) r]>)
       db).
Proof.
  intros H. unfold record_error, bind, db_increment_error_count.
  rewrite (update_row_Some _ _ _ _ H).
  unfold db_get_token_stats, db_get_admin_config, gets.
  rewrite lookup_set_table_insert. unfold after_error. simpl.
  destruct (error_ban_threshold (admin_config db)
            <=? error_count (row_stats r) + 1).
  - unfold db_update_token_status.
    rewrite (update_row_Some _ _ _ _ (lookup_set_table_insert _ _ _)).
    by rewrite set_table_insert_insert.
  - done.
Qed.

(** C2: for a stored credential, [record_error] returns normally, adds one
    to [error_count], and sets the status to disabled when the new count has
    reached the threshold that the configuration holds at the call; below
    the threshold the token row is left as it was.  Other credentials and
    the configuration are untouched. *)
Theorem record_error_counts_and_bans token_id db r :
  table db !! token_id = Some r ->
  exists db' r',
    record_error token_id db = (Ok tt, db')
    /\ table db' !! token_id = Some r'
    /\ error_count (row_stats r') = error_count (row_stats r) + 1
    /\ (error_ban_threshold (admin_config db) <= error_count (row_stats r') ->
        is_active (row_token r') = false)
    /\ (error_count (row_stats r') < error_ban_threshold (admin_config db) ->
        row_token r' = row_token r)
    /\ (forall k, k <> token_id -> table db' !! k = table db !! k)
    /\ admin_config db' = admin_config db.
Proof.
  intros H. eexists _, _. split; [by apply record_error_run|].
  split; [apply lookup_set_table_insert|].
  unfold after_error. simpl.
  destruct (Z.leb_spec (error_ban_threshold (admin_config db))
                       (error_count (row_stats r) + 1)) as [Hle|Hlt]; simpl.
  - repeat split; try done; try lia.
    intros k Hk. by rewrite lookup_insert_ne.
  - repeat split; try done; try lia.
    intros k Hk. by rewrite lookup_insert_ne.
Qed.

(** C2, at the pool where A has two errors and the threshold is 3: the
    third error is recorded without an exception and disables A. *)
Lemma record_error_counts_and_bans_witness :
  exists db' r',
    record_error 1 Scenario.pool_two_errors = (Ok tt, db')
    /\ table db' !! 1 = Some r'
    /\ error_count (row_stats r') = 3
    /\ is_active (row_token r') = false.
Proof.
  destruct (record_error_counts_and_bans 1 Scenario.pool_two_errors
              (Scenario.errors 2 (Scenario.row "A" true)) eq_refl)
    as (db' & r' & Hrun & Hrow & Hcount & Hban & _).
  exists db', r'. split; [exact Hrun|]. split; [exact Hrow|].
  split; [exact Hcount|]. apply Hban. rewrite Hcount. vm_compute. discriminate.
Defined.

(** C7 (as amended): when the threshold is reached, [record_error] is the
    counter increment followed by exactly the status write of
    [disable_token]; afterwards the credential reads disabled with an error
    count at or above the threshold, and nothing else is recorded. *)
Theorem record_error_disables_as_disable_token token_id db r :
  table db !! token_id = Some r ->
  error_ban_threshold (admin_config db) <= error_count (row_stats r) + 1 ->
  record_error token_id db
  = (db_increment_error_count token_id;; disable_token token_id) db
  /\ exists r',
      table (snd (record_error token_id db)) !! token_id = Some r'
      /\ is_active (row_token r') = false
      /\ error_ban_threshold (admin_config db) <= error_count (row_stats r')
      /\ r' = set_row_token (with_is_active false)
                (set_row_stats
                   (with_error_count (error_count (row_stats r) + 1)) r).
Proof.
  intros H Hle. rewrite (record_error_run _ _ _ H).
  unfold disable_token, db_increment_error_count, db_update_token_status.
  rewrite (update_row_twice _ _ _ _ _ H).
  unfold after_error. simpl.
  destruct (Z.leb_spec (error_ban_threshold (admin_config db))
                       (error_count (row_stats r) + 1)); [|lia].
  split; [done|]. eexists. split; [apply lookup_insert_eq|]. done.
Qed.

Lemma record_error_disables_as_disable_token_witness :
  record_error 1 Scenario.pool_two_errors
  = (db_increment_error_count 1;; disable_token 1) Scenario.pool_two_errors
  /\ exists r',
      table (snd (record_error 1 Scenario.pool_two_errors)) !! 1 = Some r'
      /\ is_active (row_token r') = false
      /\ 3 <= error_count (row_stats r')
      /\ r' = set_row_token (with_is_active false)
                (set_row_stats (with_error_count (2 + 1))
                   (Scenario.errors 2 (Scenario.row "A" true))).
Proof.
  apply (record_error_disables_as_disable_token 1 Scenario.pool_two_errors
           (Scenario.errors 2 (Scenario.row "A" true)) eq_refl).
  vm_compute. discriminate.
Defined.

(** C7, counterexample: A is disabled automatically by its third error in
    one history, and by hand in another in which A already had three errors;
    the two stores that result are equal, so no stored field tells the
    automatic disable from the manual one. *)
Lemma auto_disable_not_distinguished :
  fst (record_error 1 Scenario.pool_two_errors) = Ok tt
  /\ fst (disable_token 1 Scenario.pool_three_errors) = Ok tt
  /\ (is_active ∘ row_token <$>
      table (snd (record_error 1 Scenario.pool_two_errors)) !! 1) = Some false
  /\ snd (record_error 1 Scenario.pool_two_errors)
     = snd (disable_token 1 Scenario.pool_three_errors).
Proof. vm_compute. repeat split; reflexivity. Qed.

Lemma enable_token_run token_id db r :
  table db !! token_id = Some r ->
  enable_token token_id db
  = (Ok tt,
     set_table
       (<[token_id := set_row_stats (with_error_count 0)
                        (set_row_token (with_is_active true) r)]>) db).
Proof.
  intros H. unfold enable_token, db_update_token_status, db_reset_error_count.
  by rewrite (update_row_twice _ _ _ _ _ H).
Qed.

Lemma record_usage_run token_id is_video db r :
  table db !! token_id = Some r ->
  record_usage token_id is_video db
  = (Ok tt,
     set_table
       (<[token_id :=
            set_row_stats
              (fun s => if is_video
                        then with_video_count (video_count s + 1) s
                        else with_image_count (image_count s + 1) s) r]>) db).
Proof.
  intros H. unfold record_usage, db_update_token_usage,
    db_increment_video_count, db_increment_image_count.
  destruct is_video; by rewrite (update_row_twice _ _ _ _ _ H).
Qed.

Lemma check_and_apply_cooldown_run now token_id db r :
  table db !! token_id = Some r ->
  check_and_apply_cooldown now token_id db
  = if video_cooldown_threshold (admin_config db) <=? video_count (row_stats r)
    then (Ok tt,
          set_table
            (<[token_id :=
                 set_row_token (with_cooled_until (Some (now + twelve_hours)))
                               r]>) db)
    else (Ok tt, db).
Proof.
  intros H. unfold check_and_apply_cooldown, bind, db_get_token_stats,
    db_get_admin_config, gets.
  rewrite H. simpl.
  destruct (_ <=? _); [|done].
  unfold db_update_token_cooldown. by rewrite (update_row_Some _ _ _ _ H).
Qed.

(** A stored credential that is selectable can be drawn, for video
    generation always and for image generation when it is not locked. *)
Lemma selectable_can_be_selected now db lock k r for_image_generation :
  table db !! k = Some r ->
  selectable now (row_token r) = true ->
  (for_image_generation = true -> held now lock k = false) ->
  exists rnd,
    select_token now rnd for_image_generation
      {| token_manager := db; token_lock := lock |}
    = (Ok (Some (token_of_row (k, r))),
       {| token_manager := db; token_lock := lock |}).
Proof.
  intros Hk Hs Hl. apply elem_of_select_token, elem_of_eligible.
  split; [eauto|]. split; [done|]. exact Hl.
Qed.

(** A stored credential that is not selectable is never drawn. *)
Lemma unselectable_never_selected now db lock k r rnd for_image_generation t :
  table db !! k = Some r ->
  selectable now (row_token r) = false ->
  fst (select_token now rnd for_image_generation
         {| token_manager := db; token_lock := lock |}) = Ok (Some t) ->
  id t <> k.
Proof.
  intros Hk Hs Hsel Heq.
  apply select_token_elem_of, elem_of_eligible in Hsel
    as ((k' & r' & Hk' & ->) & Hs' & _).
  rewrite id_token_of_row in Heq. subst k'. simpl in Hk'.
  rewrite Hk in Hk'. injection Hk' as <-.
  rewrite selectable_token_of_row in Hs'. congruence.
Qed.

(** C5: for a stored credential, [enable_token] sets the status to active
    and [error_count] to 0 and changes nothing else of the credential, so
    that the credential can be selected again when it is not cooled (and,
    for image generation, not locked); [record_success] sets [error_count]
    to 0 and leaves the token row as it was. *)
Theorem enable_and_success_reset_error_count token_id db r :
  table db !! token_id = Some r ->
  (exists db' r',
     enable_token token_id db = (Ok tt, db')
     /\ table db' !! token_id = Some r'
     /\ error_count (row_stats r') = 0
     /\ is_active (row_token r') = true
     /\ cooled_until (row_token r') = cooled_until (row_token r)
     /\ (forall now lock for_image_generation,
          match cooled_until (row_token r) with
          | Some c => c <= now
          | None => True
          end ->
          (for_image_generation = true -> held now lock token_id = false) ->
          exists rnd,
            select_token now rnd for_image_generation
              {| token_manager := db'; token_lock := lock |}
            = (Ok (Some (token_of_row (token_id, r'))),
               {| token_manager := db'; token_lock := lock |})))
  /\ (exists db' r',
        record_success token_id db = (Ok tt, db')
        /\ table db' !! token_id = Some r'
        /\ error_count (row_stats r') = 0
        /\ row_token r' = row_token r).
Proof.
  intros H. split.
  - eexists _, _. split; [by apply enable_token_run|].
    split; [apply lookup_set_table_insert|].
    repeat split.
    intros now lock b Hcool Hlock.
    apply selectable_can_be_selected; [apply lookup_set_table_insert| |done].
    unfold selectable. simpl.
    destruct (cooled_until (row_token r)); [|done]. by apply Z.leb_le.
  - eexists _, _. unfold record_success, db_reset_error_count.
    split; [by apply update_row_Some|].
    split; [apply lookup_set_table_insert|]. done.
Qed.

(** C5, at the pool where A was disabled by its third error: enabling A
    resets the count and makes A selectable again; and a success on the
    pool with two errors resets the count. *)
Lemma enable_and_success_reset_error_count_witness :
  let banned := snd (record_error 1 Scenario.pool_two_errors) in
  (forall rnd for_image_generation t,
     fst (select_token 150 rnd for_image_generation
            {| token_manager := banned;
               token_lock := token_lock Scenario.lb |}) = Ok (Some t) ->
     id t <> 1)
  /\ (exists db' r',
        enable_token 1 banned = (Ok tt, db')
        /\ table db' !! 1 = Some r'
        /\ error_count (row_stats r') = 0
        /\ is_active (row_token r') = true
        /\ exists rnd,
            select_token 150 rnd true
              {| token_manager := db'; token_lock := token_lock Scenario.lb |}
            = (Ok (Some (token_of_row (1, r'))),
               {| token_manager := db'; token_lock := token_lock Scenario.lb |}))
  /\ (exists db' r',
        record_success 1 Scenario.pool_two_errors = (Ok tt, db')
        /\ table db' !! 1 = Some r'
        /\ error_count (row_stats r') = 0).
Proof.
  intros banned. split; [|split].
  - intros rnd b t.
    apply (unselectable_never_selected 150 banned _ 1
             (after_error 3 (Scenario.errors 2 (Scenario.row "A" true))));
      reflexivity.
  - destruct (enable_and_success_reset_error_count 1 banned
                (after_error 3 (Scenario.errors 2 (Scenario.row "A" true)))
                eq_refl)
      as [(db' & r' & Hrun & Hrow & Hcount & Hact & _ & Hsel) _].
    exists db', r'. repeat (split; [assumption|]).
    apply (Hsel 150 (token_lock Scenario.lb) true); [exact I|reflexivity].
  - destruct (enable_and_success_reset_error_count 1 Scenario.pool_two_errors
                (Scenario.errors 2 (Scenario.row "A" true)) eq_refl)
      as [_ (db' & r' & Hrun & Hrow & Hcount & _)].
    exists db', r'. repeat (split; [assumption|]). assumption.
Defined.

(** C3 (as amended): for a stored credential, [record_usage] for a video
    adds one to [video_count] and changes nothing else, whatever the
    threshold; the cooldown is set by [check_and_apply_cooldown], which,
    when [video_count] has reached the threshold that the configuration
    holds at the call, sets [cooled_until] to twelve hours after the clock
    and keeps the status.  From then on the credential is never selected
    while the clock is before [cooled_until], and once the clock has reached
    it an active credential can be selected again, with no further write. *)
Theorem usage_and_cooldown token_id db r now :
  table db !! token_id = Some r ->
  (exists db',
     record_usage token_id true db = (Ok tt, db')
     /\ table db' !! token_id
        = Some (set_row_stats
                  (with_video_count (video_count (row_stats r) + 1)) r)
     /\ admin_config db' = admin_config db)
  /\ (video_cooldown_threshold (admin_config db) <= video_count (row_stats r) ->
      exists db' r',
        check_and_apply_cooldown now token_id db = (Ok tt, db')
        /\ table db' !! token_id = Some r'
        /\ cooled_until (row_token r') = Some (now + 12 * 3600)
        /\ is_active (row_token r') = is_active (row_token r)
        /\ row_stats r' = row_stats r
        /\ (forall later rnd for_image_generation lock t,
             later < now + 12 * 3600 ->
             fst (select_token later rnd for_image_generation
                    {| token_manager := db'; token_lock := lock |})
             = Ok (Some t) ->
             id t <> token_id)
        /\ (forall later lock,
             now + 12 * 3600 <= later ->
             is_active (row_token r) = true ->
             exists rnd,
               select_token later rnd false
                 {| token_manager := db'; token_lock := lock |}
               = (Ok (Some (token_of_row (token_id, r'))),
                  {| token_manager := db'; token_lock := lock |})))
  /\ (video_count (row_stats r) < video_cooldown_threshold (admin_config db) ->
      check_and_apply_cooldown now token_id db = (Ok tt, db)).
Proof.
  intros H. split; [|split].
  - eexists. split; [by apply record_usage_run|].
    split; [apply lookup_set_table_insert|done].
  - intros Hle. rewrite (check_and_apply_cooldown_run _ _ _ _ H).
    destruct (Z.leb_spec (video_cooldown_threshold (admin_config db))
                         (video_count (row_stats r))); [|lia].
    eexists _, _. split; [reflexivity|].
    split; [apply lookup_set_table_insert|].
    repeat split.
    + intros later rnd b lock t Hlt.
      apply unselectable_never_selected
        with (r := set_row_token
                     (with_cooled_until (Some (now + twelve_hours))) r);
        [apply lookup_set_table_insert|].
      unfold selectable, twelve_hours. simpl.
      apply andb_false_iff. right. apply Z.leb_gt. lia.
    + intros later lock Hge Hact.
      apply selectable_can_be_selected;
        [apply lookup_set_table_insert| |discriminate].
      unfold selectable, twelve_hours. simpl. rewrite Hact. simpl.
      apply Z.leb_le. lia.
  - intros Hlt. rewrite (check_and_apply_cooldown_run _ _ _ _ H).
    destruct (Z.leb_spec (video_cooldown_threshold (admin_config db))
                         (video_count (row_stats r))); [lia|done].
Qed.

(** C3, at the pool where A has made one video and the threshold is 2: the
    second video is counted; the cooldown check at time 150 then sets
    [cooled_until] to 43350, and A is out of selection at 43349 and back in
    at 43350. *)
Lemma usage_and_cooldown_witness :
  exists counted cooled r',
    record_usage 1 true Scenario.pool_one_video = (Ok tt, counted)
    /\ check_and_apply_cooldown 150 1 counted = (Ok tt, cooled)
    /\ table cooled !! 1 = Some r'
    /\ cooled_until (row_token r') = Some 43350
    /\ is_active (row_token r') = true
    /\ (forall rnd for_image_generation t,
         fst (select_token 43349 rnd for_image_generation
                {| token_manager := cooled;
                   token_lock := token_lock Scenario.lb |}) = Ok (Some t) ->
         id t <> 1)
    /\ (exists rnd,
          fst (select_token 43350 rnd false
                 {| token_manager := cooled;
                    token_lock := token_lock Scenario.lb |})
          = Ok (Some (token_of_row (1, r')))).
Proof.
  destruct (usage_and_cooldown 1 Scenario.pool_one_video
              (set_row_stats (with_video_count 1) (Scenario.row "A" true))
              150 eq_refl) as [(counted & Hrun & Hrow & Hcfg) _].
  destruct (usage_and_cooldown 1 counted _ 150 Hrow) as (_ & Hcool & _).
  destruct Hcool as (cooled & r' & Hrun' & Hrow' & Hcu & Hact & _ & Hout & Hin).
  { rewrite Hcfg. vm_compute. discriminate. }
  exists counted, cooled, r'.
  split; [exact Hrun|]. split; [exact Hrun'|]. split; [exact Hrow'|].
  split; [exact Hcu|]. split; [exact Hact|]. split.
  - intros rnd b t. apply (Hout 43349 rnd b). reflexivity.
  - destruct (Hin 43350 (token_lock Scenario.lb)) as [rnd Hrnd];
      [vm_compute; discriminate|reflexivity|].
    exists rnd. by rewrite Hrnd.
Defined.

(** C3, counterexample: A has made one video and the threshold is 2.  The
    [record_usage] call for the second video brings [video_count] to the
    threshold and returns with no cooldown set, and A is still selected. *)
Lemma record_usage_sets_no_cooldown :
  let db' := snd (record_usage 1 true Scenario.pool_one_video) in
  fst (record_usage 1 true Scenario.pool_one_video) = Ok tt
  /\ (video_count ∘ row_stats <$> table db' !! 1) = Some 2
  /\ video_cooldown_threshold (admin_config db') = 2
  /\ (cooled_until ∘ row_token <$> table db' !! 1) = Some None
  /\ fst (select_token 150 1 false
            {| token_manager := db'; token_lock := token_lock Scenario.lb |})
     = Ok (Some Scenario.A).
Proof. vm_compute. repeat split; reflexivity. Qed.

(** ** Admission: [add_token] *)

Lemma foldr_max_ge (l : list Z) x : x ∈ l -> x <= foldr Z.max 0 l.
Proof.
  induction l as [|y l IH]; intros H.
  - by apply elem_of_nil in H.
  - apply elem_of_cons in H as [->|H]; simpl; [lia|].
    specialize (IH H). lia.
Qed.

(** The id that [db_add_token] assigns is not in use. *)
Lemma next_id_fresh db : table db !! next_id db = None.
Proof.
  destruct (table db !! next_id db) as [r|] eqn:H; [|done].
  apply elem_of_map_to_list in H.
  assert (Hin : next_id db ∈ (fst <$> map_to_list (table db))).
  { apply list_elem_of_fmap. by exists (next_id db, r). }
  apply foldr_max_ge in Hin. unfold next_id in Hin at 1. lia.
Qed.

Lemma db_get_token_by_value_run token_value db o :
  fst (db_get_token_by_value token_value db) = Ok o ->
  db_get_token_by_value token_value db = (Ok o, db).
Proof. unfold db_get_token_by_value, gets. simpl. by intros [= ->]. Qed.

(** What a lookup by secret value finds is a stored credential with that
    secret value. *)
Lemma db_get_token_by_value_Some token_value db existing :
  fst (db_get_token_by_value token_value db) = Ok (Some existing) ->
  token existing = token_value
  /\ exists r, table db !! id existing = Some r
             /\ existing = token_of_row (id existing, r).
Proof.
  unfold db_get_token_by_value, gets. simpl. intros [= H].
  apply find_some in H as [Hin Hv].
  apply bool_decide_eq_true in Hv. split; [done|].
  apply list_elem_of_In, elem_of_all_tokens in Hin as (k & r & Hk & ->).
  rewrite id_token_of_row. eauto.
Qed.

Section Admission.

Variable jwt_decode : string -> string + JwtClaims.
Variable fromtimestamp : JsonValue -> Result Z.
Variable parser_parse : string -> Result Z.
Variable session_get_me : string -> Result (Response UserInfo).
Variable session_get_subscriptions :
  string -> Result (Response (list Subscription)).
Variable session_get_invite_mine : string -> Result (Response InviteMine).

Local Abbreviation get_user_info' := (get_user_info session_get_me).
Local Abbreviation get_subscription_info' :=
  (get_subscription_info session_get_subscriptions).
Local Abbreviation get_sora2_invite_code' :=
  (get_sora2_invite_code session_get_invite_mine).
Local Abbreviation subscription_block' :=
  (subscription_block parser_parse session_get_subscriptions).
Local Abbreviation update_existing_token' :=
  (update_existing_token jwt_decode fromtimestamp parser_parse session_get_me
     session_get_subscriptions).
Local Abbreviation add_token' :=
  (add_token jwt_decode fromtimestamp parser_parse session_get_me
     session_get_subscriptions session_get_invite_mine).

(** The enrichment calls read the network and write nothing. *)
Lemma get_user_info_stateless tv db : snd (get_user_info' tv db) = db.
Proof.
  unfold get_user_info, bind, lift.
  destruct (session_get_me tv) as [resp|e]; [|done].
  by destruct (negb _).
Qed.

Lemma get_subscription_info_stateless tv db :
  snd (get_subscription_info' tv db) = db.
Proof.
  unfold get_subscription_info, bind, lift.
  destruct (session_get_subscriptions tv) as [resp|e]; [|done].
  destruct (_ =? _); [|done].
  destruct (json resp) as [[|sub l]|e]; done.
Qed.

Lemma get_sora2_invite_code_stateless tv db :
  snd (get_sora2_invite_code' tv db) = db.
Proof.
  unfold get_sora2_invite_code, bind, lift.
  destruct (session_get_invite_mine tv) as [resp|e]; [|done].
  destruct (_ =? _); [|done].
  destruct (json resp) as [data|e]; done.
Qed.

(** The subscription block never raises and writes nothing; when the
    call fails, the three variables stay None. *)
Lemma subscription_block_run tv db :
  exists plan_type plan_title subscription_end,
    subscription_block' tv db
    = (Ok (plan_type, plan_title, subscription_end), db)
    /\ (is_ok (fst (get_subscription_info' tv db)) = false ->
        plan_type = None /\ plan_title = None /\ subscription_end = None).
Proof.
  unfold subscription_block, try_except, bind at 1.
  pose proof (get_subscription_info_stateless tv db) as Hs.
  destruct (get_subscription_info' tv db) as [[sub_info|e] db1];
    simpl in Hs; subst db1.
  - destruct (nonempty _); [|by eexists _, _, _].
    unfold bind, lift, ret.
    destruct (parser_parse _); by eexists _, _, _.
  - by eexists _, _, _.
Qed.

Lemma decode_jwt_inr tv db d :
  jwt_decode tv = inr d -> decode_jwt jwt_decode tv db = (Ok d, db).
Proof. unfold decode_jwt. by intros ->. Qed.

Lemma decode_jwt_inl tv db e :
  jwt_decode tv = inl e ->
  decode_jwt jwt_decode tv db
  = (Raise (ValueError ("Invalid JWT token: " +:+ e)), db).
Proof. unfold decode_jwt. by intros ->. Qed.

(** The user-info block of [add_token]. *)
Lemma user_info_block_run tv (jwt_email : option string) db :
  exists email name,
    try_except
      (let* user_info := get_user_info' tv in
       ret (default (or_empty jwt_email) (ui_email user_info),
            or_empty (ui_name user_info)))
      (fun _ =>
         let email := or_empty jwt_email in
         ret (email, if nonempty email then before_at email else EmptyString))
      db
    = (Ok (email, name), db)
    /\ (is_ok (fst (get_user_info' tv db)) = false ->
        email = or_empty jwt_email
        /\ name = if nonempty email then before_at email else EmptyString).
Proof.
  unfold try_except, bind.
  pose proof (get_user_info_stateless tv db) as Hs.
  destruct (get_user_info' tv db) as [[user_info|e] db1];
    simpl in Hs; subst db1; by eexists _, _.
Qed.

(** The Sora2 block of [add_token]. *)
Lemma sora2_block_run tv db :
  exists supported invite_code redeemed_count total_count,
    try_except
      (let* sora2_info := get_sora2_invite_code' tv in
       ret (Some (s2_supported sora2_info),
            s2_invite_code sora2_info,
            default 0 (s2_redeemed_count sora2_info),
            default 0 (s2_total_count sora2_info)))
      (fun _ => ret (None, None, 0, 0))
      db
    = (Ok (supported, invite_code, redeemed_count, total_count), db)
    /\ (is_ok (fst (get_sora2_invite_code' tv db)) = false ->
        supported = None /\ invite_code = None
        /\ redeemed_count = 0 /\ total_count = 0)
    /\ (forall response,
          session_get_invite_mine tv = Ok response ->
          status_code response <> 200 ->
          supported = Some false /\ invite_code = None
          /\ redeemed_count = 0 /\ total_count = 0).
Proof.
  unfold try_except, bind at 1.
  pose proof (get_sora2_invite_code_stateless tv db) as Hs.
  destruct (get_sora2_invite_code' tv db) as [[sora2_info|e] db1] eqn:Hrun;
    simpl in Hs; subst db1.
  - eexists _, _, _, _. split; [reflexivity|]. split; [done|].
    intros response Hresp Hstatus.
    unfold get_sora2_invite_code, bind, lift in Hrun. rewrite Hresp in Hrun.
    apply Z.eqb_neq in Hstatus. rewrite Hstatus in Hrun.
    by injection Hrun as <-.
  - eexists _, _, _, _. split; [reflexivity|]. split; [done|].
    intros response Hresp Hstatus.
    unfold get_sora2_invite_code, bind, lift in Hrun. rewrite Hresp in Hrun.
    apply Z.eqb_neq in Hstatus. by rewrite Hstatus in Hrun.
Qed.


(** [update_existing_token] on a stored credential whose new value
    decodes and whose [exp] converts: one row is rewritten and read back. *)
Lemma update_existing_token_run token_id tv st rt remark db r decoded expiry :
  table db !! token_id = Some r ->
  jwt_decode tv = inr decoded ->
  convert_exp fromtimestamp decoded = Ok expiry ->
  exists u,
    update_existing_token' token_id tv st rt remark db
    = (Ok (Some (token_of_row (token_id, set_row_token (apply_update u) r))),
       set_table (<[token_id := set_row_token (apply_update u) r]>) db)
    /\ u_token u = Some tv /\ u_st u = st /\ u_rt u = rt
    /\ u_remark u = remark /\ u_expiry_time u = expiry.
Proof.
  intros Hrow Hdec Hexp. unfold update_existing_token.
  unfold bind at 1. rewrite (decode_jwt_inr _ _ _ Hdec).
  unfold bind at 1, lift at 1. rewrite Hexp.
  unfold bind at 1, try_except, bind at 1.
  pose proof (get_user_info_stateless tv db) as Hs.
  destruct (get_user_info' tv db) as [[user_info|e] db1];
    simpl in Hs; subst db1; simpl;
    destruct (subscription_block_run tv db)
      as (pt & ptitle & send & Hsub & _);
    unfold bind at 1; rewrite Hsub;
    unfold bind, db_update_token; rewrite (update_row_Some _ _ _ _ Hrow);
    unfold db_get_token, gets, ret; rewrite lookup_set_table_insert;
    eexists; (split; [reflexivity|done]).
Qed.


(** C10: a secret value that does not decode is never admitted.  For a new
    credential [add_token] raises the ValueError of [decode_jwt]; on every
    path it raises a ValueError and leaves the store as it was; hence a call
    that returns has decoded its secret value. *)
Theorem add_token_rejects_undecodable
    token_value st rt remark update_if_exists db :
  (forall e,
     jwt_decode token_value = inl e ->
     fst (db_get_token_by_value token_value db) = Ok None ->
     add_token' token_value st rt remark update_if_exists db
     = (Raise (ValueError ("Invalid JWT token: " +:+ e)), db))
  /\ (forall e,
        jwt_decode token_value = inl e ->
        exists msg,
          add_token' token_value st rt remark update_if_exists db
          = (Raise (ValueError msg), db))
  /\ (forall r db',
        add_token' token_value st rt remark update_if_exists db = (Ok r, db') ->
        exists decoded, jwt_decode token_value = inr decoded).
Proof.
  assert (Hnew : forall e,
             jwt_decode token_value = inl e ->
             fst (db_get_token_by_value token_value db) = Ok None ->
             add_token' token_value st rt remark update_if_exists db
             = (Raise (ValueError ("Invalid JWT token: " +:+ e)), db)).
  { intros e He Hfind. unfold add_token, bind at 1.
    rewrite (db_get_token_by_value_run _ _ _ Hfind).
    unfold bind at 1. by rewrite (decode_jwt_inl _ _ _ He). }
  assert (Hany : forall e,
             jwt_decode token_value = inl e ->
             exists msg,
               add_token' token_value st rt remark update_if_exists db
               = (Raise (ValueError msg), db)).
  { intros e He.
    destruct (fst (db_get_token_by_value token_value db)) as [[existing|]|err]
      eqn:Hfind.
    - unfold add_token, bind at 1.
      rewrite (db_get_token_by_value_run _ _ _ Hfind).
      destruct update_if_exists; cbn [negb]; [|by eexists].
      unfold update_existing_token. unfold bind at 1.
      rewrite (decode_jwt_inl _ _ _ He). by eexists.
    - eexists. by apply Hnew.
    - unfold db_get_token_by_value, gets in Hfind. discriminate. }
  split; [exact Hnew|]. split; [exact Hany|].
  intros r db' Hrun. destruct (jwt_decode token_value) as [e|decoded] eqn:He.
  - destruct (Hany e eq_refl) as [msg Hmsg]. congruence.
  - by exists decoded.
Qed.

End Admission.




(** C10, at the pool of section 8 with a token library that decodes
    nothing: the call raises and the pool is as before. *)
Lemma add_token_rejects_undecodable_witness :
  add_token Scenario.jwt_rejects Scenario.fromtimestamp Scenario.parse_fails
    Scenario.unreachable Scenario.unreachable Scenario.unreachable
    "not-a-jwt" None None None false Scenario.pool
  = (Raise (ValueError "Invalid JWT token: Not enough segments"),
     Scenario.pool).
Proof.
  apply (proj1 (add_token_rejects_undecodable Scenario.jwt_rejects
                  Scenario.fromtimestamp Scenario.parse_fails
                  Scenario.unreachable Scenario.unreachable
                  Scenario.unreachable
                  "not-a-jwt" None None None false Scenario.pool)
           "Not enough segments"%string);
    reflexivity.
Defined.

(** * Further properties *)

(** ** What sequences of health calls keep *)

Section Keeps.

Variable R : Row -> Row -> Prop.
Hypothesis R_refl : forall r, R r r.
Hypothesis R_trans : forall a b c, R a b -> R b c -> R a c.

Lemma db_related_refl db : db_related R db db.
Proof. split; [done|]. intros k. destruct (table db !! k); auto. Qed.

Lemma db_related_trans a b c :
  db_related R a b -> db_related R b c -> db_related R a c.
Proof.
  intros [Hc1 H1] [Hc2 H2]. split; [congruence|]. intros k.
  specialize (H1 k). specialize (H2 k).
  destruct (table a !! k), (table b !! k), (table c !! k); eauto; done.
Qed.

Lemma keeps_ret {A} (a : A) : keeps R (ret a).
Proof. intros db. apply db_related_refl. Qed.

Lemma keeps_gets {A} (f : Database -> A) : keeps R (gets f).
Proof. intros db. apply db_related_refl. Qed.

Lemma keeps_bind {A B} (m : M Database A) (k : A -> M Database B) :
  keeps R m -> (forall a, keeps R (k a)) -> keeps R (bind m k).
Proof.
  intros Hm Hk db. unfold bind. specialize (Hm db).
  destruct (m db) as [[a|e] db1]; simpl in *; [|done].
  eapply db_related_trans; [exact Hm|apply Hk].
Qed.

Lemma keeps_update_row token_id f :
  (forall r, R r (f r)) -> keeps R (update_row token_id f).
Proof.
  intros Hf db. unfold update_row.
  destruct (table db !! token_id) as [r|] eqn:Hr; simpl;
    [|apply db_related_refl].
  split; [done|]. intros k. simpl.
  destruct (decide (k = token_id)) as [->|Hne].
  - rewrite Hr, lookup_insert_eq. apply Hf.
  - rewrite lookup_insert_ne by done. destruct (table db !! k); auto.
Qed.

Lemma run_calls_related calls db :
  (forall c, c ∈ calls -> keeps R (run_call c)) ->
  db_related R db (run_calls calls db).
Proof.
  revert db. induction calls as [|c calls IH]; intros db Hall; simpl.
  - apply db_related_refl.
  - eapply db_related_trans.
    + apply (Hall c). left.
    + apply IH. intros c' Hc'. apply Hall. by right.
Qed.

End Keeps.

Lemma db_related_lookup R db db' k r :
  db_related R db db' -> table db !! k = Some r ->
  exists r', table db' !! k = Some r' /\ R r r'.
Proof.
  intros [_ H] Hr. specialize (H k). rewrite Hr in H.
  destruct (table db' !! k) as [r'|]; [eauto|done].
Qed.

(** One step of a proof that a method keeps a relation on rows; [Hrefl]
    and [Htrans] are the two order laws of the relation. *)
Ltac keeps_step Hrefl Htrans :=
  first
    [ apply (keeps_ret _ Hrefl)
    | apply (keeps_gets _ Hrefl)
    | apply (keeps_update_row _ Hrefl); intros ?
    | apply (keeps_bind _ Htrans); [|intros ?]
    | match goal with
      | |- keeps _ (match ?x with _ => _ end) => destruct x
      end ].

Lemma row_kept_refl r : row_kept r r.
Proof. unfold row_kept. repeat split; lia. Qed.

Lemma row_kept_trans a b c : row_kept a b -> row_kept b c -> row_kept a c.
Proof.
  unfold row_kept. intros (H1 & H2 & H3) (H4 & H5 & H6).
  repeat split; [congruence|lia|lia].
Qed.

Lemma row_not_revived_refl r : row_not_revived r r.
Proof. by intros H. Qed.

Lemma row_not_revived_trans a b c :
  row_not_revived a b -> row_not_revived b c -> row_not_revived a c.
Proof. unfold row_not_revived. auto. Qed.

Lemma row_same_videos_refl r : row_same_videos r r.
Proof. reflexivity. Qed.

Lemma row_same_videos_trans a b c :
  row_same_videos a b -> row_same_videos b c -> row_same_videos a c.
Proof. unfold row_same_videos. congruence. Qed.

Lemma run_call_keeps_row_kept c : keeps row_kept (run_call c).
Proof.
  destruct c as [k v|k|k|now k|k|k|k b]; simpl;
    unfold record_usage, record_error, record_success,
      check_and_apply_cooldown, enable_token, disable_token,
      update_token_status, db_update_token_usage, db_increment_video_count,
      db_increment_image_count, db_increment_error_count,
      db_reset_error_count, db_update_token_status, db_update_token_cooldown,
      db_get_token_stats, db_get_admin_config;
    repeat keeps_step row_kept_refl row_kept_trans;
    unfold row_kept; simpl; repeat split; lia.
Qed.

Lemma run_call_keeps_row_not_revived c :
  activates c = false -> keeps row_not_revived (run_call c).
Proof.
  destruct c as [k v|k|k|now k|k|k|k b]; simpl; try discriminate;
    intros Hact; try subst b;
    unfold record_usage, record_error, record_success,
      check_and_apply_cooldown, disable_token,
      update_token_status, db_update_token_usage, db_increment_video_count,
      db_increment_image_count, db_increment_error_count,
      db_reset_error_count, db_update_token_status, db_update_token_cooldown,
      db_get_token_stats, db_get_admin_config;
    repeat keeps_step row_not_revived_refl row_not_revived_trans;
    unfold row_not_revived; simpl; auto.
Qed.

Lemma run_call_keeps_row_same_videos c :
  counts_video c = false -> keeps row_same_videos (run_call c).
Proof.
  destruct c as [k v|k|k|now k|k|k|k b]; simpl; try discriminate;
    intros Hv; try subst v;
    unfold record_usage, record_error, record_success,
      check_and_apply_cooldown, enable_token, disable_token,
      update_token_status, db_update_token_usage,
      db_increment_image_count, db_increment_error_count,
      db_reset_error_count, db_update_token_status, db_update_token_cooldown,
      db_get_token_stats, db_get_admin_config;
    repeat keeps_step row_same_videos_refl row_same_videos_trans;
    reflexivity.
Qed.

Lemma with_status_cooldown_eq (t t' : Token) :
  with_cooled_until None (with_is_active true t')
  = with_cooled_until None (with_is_active true t) ->
  t' = with_cooled_until (cooled_until t')
         (with_is_active (is_active t') t).
Proof.
  destruct t, t'. unfold with_cooled_until, with_is_active. simpl.
  intros [= -> -> -> -> -> -> -> -> -> -> -> -> -> -> ->]. reflexivity.
Qed.

Lemma db_related_dom R db db' :
  db_related R db db' -> dom (table db') = dom (table db).
Proof.
  intros [_ H]. apply set_eq. intros k. rewrite !elem_of_dom.
  specialize (H k).
  destruct (table db !! k), (table db' !! k); try done; split; eauto.
Qed.

(** X1: whatever sequence of health and status calls is made (usage,
    error, success, cooldown check, enable, disable, status update, for any
    ids and in any order), the store holds the same ids and the same
    configuration afterwards, every credential differs from what it was at
    most in status, cooldown and counters, and its image and video counters
    have not gone down. *)
Theorem health_calls_keep_credentials calls db :
  admin_config (run_calls calls db) = admin_config db
  /\ dom (table (run_calls calls db)) = dom (table db)
  /\ forall k r,
      table db !! k = Some r ->
      exists r',
        table (run_calls calls db) !! k = Some r'
        /\ row_token r'
           = with_cooled_until (cooled_until (row_token r'))
               (with_is_active (is_active (row_token r')) (row_token r))
        /\ image_count (row_stats r) <= image_count (row_stats r')
        /\ video_count (row_stats r) <= video_count (row_stats r').
Proof.
  assert (H : db_related row_kept db (run_calls calls db)).
  { apply (run_calls_related _ row_kept_refl row_kept_trans).
    intros c _. apply run_call_keeps_row_kept. }
  split; [apply H|]. split; [by eapply db_related_dom|].
  intros k r Hr.
  destruct (db_related_lookup _ _ _ _ _ H Hr) as (r' & Hr' & He & Hi & Hv).
  exists r'. split; [done|]. split; [by apply with_status_cooldown_eq|done].
Qed.

(** X2: only [enable_token] and [update_token_status(id, True)] make a
    credential active.  After any sequence of the other health calls
    (including [record_success] and cooldown checks) a credential that was
    disabled is still disabled, and [select_token] does not return it. *)
Theorem disabled_until_enabled calls db k r :
  (forall c, c ∈ calls -> activates c = false) ->
  table db !! k = Some r ->
  is_active (row_token r) = false ->
  exists r',
    table (run_calls calls db) !! k = Some r'
    /\ is_active (row_token r') = false
    /\ forall now rnd for_image_generation lock t,
        fst (select_token now rnd for_image_generation
               {| token_manager := run_calls calls db; token_lock := lock |})
        = Ok (Some t) ->
        id t <> k.
Proof.
  intros Hall Hr Hoff.
  assert (H : db_related row_not_revived db (run_calls calls db)).
  { apply (run_calls_related _ row_not_revived_refl row_not_revived_trans).
    intros c Hc. apply run_call_keeps_row_not_revived. by apply Hall. }
  destruct (db_related_lookup _ _ _ _ _ H Hr) as (r' & Hr' & Hrev).
  exists r'. split; [done|]. split; [by apply Hrev|].
  intros now rnd b lock t. apply unselectable_never_selected with (r := r').
  - done.
  - unfold selectable. by rewrite (Hrev Hoff).
Qed.

(** X2, at the pool where A has two errors: the third error disables A;
    a success, a video, a cooldown check and one more error later, A is
    still disabled. *)
Lemma disabled_until_enabled_witness :
  let calls := [CallRecordSuccess 1; CallRecordUsage 1 true;
                CallCheckCooldown 150 1; CallRecordError 1] in
  let banned := snd (record_error 1 Scenario.pool_two_errors) in
  exists r',
    table (run_calls calls banned) !! 1 = Some r'
    /\ is_active (row_token r') = false.
Proof.
  intros calls banned.
  destruct (disabled_until_enabled calls banned 1
              (after_error 3 (Scenario.errors 2 (Scenario.row "A" true))))
    as (r' & Hr' & Hoff & _).
  - intros c Hc. unfold calls in Hc.
    repeat (apply elem_of_cons in Hc as [->|Hc]; [reflexivity|]).
    by apply elem_of_nil in Hc.
  - reflexivity.
  - reflexivity.
  - by exists r'.
Defined.

(** X3: the video counter of a credential changes only when a video is
    counted.  After any sequence of health calls in which no video is
    counted (image usage, errors, successes, status changes, cooldown
    checks), a credential that was below the cooldown threshold is still
    below it, and a cooldown check writes nothing: image usage never
    triggers a cooldown. *)
Theorem no_video_no_cooldown calls db k r now :
  (forall c, c ∈ calls -> counts_video c = false) ->
  table db !! k = Some r ->
  video_count (row_stats r) < video_cooldown_threshold (admin_config db) ->
  (exists r',
     table (run_calls calls db) !! k = Some r'
     /\ video_count (row_stats r') = video_count (row_stats r))
  /\ check_and_apply_cooldown now k (run_calls calls db)
     = (Ok tt, run_calls calls db).
Proof.
  intros Hall Hr Hlt.
  assert (H : db_related row_same_videos db (run_calls calls db)).
  { apply (run_calls_related _ row_same_videos_refl row_same_videos_trans).
    intros c Hc. apply run_call_keeps_row_same_videos. by apply Hall. }
  destruct (db_related_lookup _ _ _ _ _ H Hr) as (r' & Hr' & Hv).
  split; [by exists r'|].
  rewrite (check_and_apply_cooldown_run _ _ _ _ Hr').
  destruct H as [-> _]. rewrite Hv.
  destruct (Z.leb_spec (video_cooldown_threshold (admin_config db))
                       (video_count (row_stats r))); [lia|done].
Qed.

(** X3, at the pool of section 8 (threshold 2, no video made with A): three
    images and an error later the cooldown check for A writes nothing. *)
Lemma no_video_no_cooldown_witness :
  let calls := [CallRecordUsage 1 false; CallRecordUsage 1 false;
                CallRecordError 1; CallRecordUsage 1 false] in
  check_and_apply_cooldown 150 1 (run_calls calls Scenario.pool)
  = (Ok tt, run_calls calls Scenario.pool).
Proof.
  intros calls.
  apply (no_video_no_cooldown calls Scenario.pool 1 (Scenario.row "A" true)).
  - intros c Hc. unfold calls in Hc.
    repeat (apply elem_of_cons in Hc as [->|Hc]; [reflexivity|]).
    by apply elem_of_nil in Hc.
  - reflexivity.
  - reflexivity.
Defined.

(** X4: nothing resets the video counter.  Once a credential has reached
    the cooldown threshold, then after any sequence of health calls
    (enabling included) a cooldown check at any time [now] sets
    [cooled_until] to twelve hours after [now] again. *)
Theorem cooldown_condition_persists calls db k r now :
  table db !! k = Some r ->
  video_cooldown_threshold (admin_config db) <= video_count (row_stats r) ->
  exists db' r',
    check_and_apply_cooldown now k (run_calls calls db) = (Ok tt, db')
    /\ table db' !! k = Some r'
    /\ cooled_until (row_token r') = Some (now + 12 * 3600).
Proof.
  intros Hr Hle.
  assert (H : db_related row_kept db (run_calls calls db)).
  { apply (run_calls_related _ row_kept_refl row_kept_trans).
    intros c _. apply run_call_keeps_row_kept. }
  destruct (db_related_lookup _ _ _ _ _ H Hr) as (r' & Hr' & _ & _ & Hv).
  rewrite (check_and_apply_cooldown_run _ _ _ _ Hr').
  destruct H as [-> _].
  destruct (Z.leb_spec (video_cooldown_threshold (admin_config db))
                       (video_count (row_stats r'))); [|lia].
  eexists _, _. split; [reflexivity|].
  split; [apply lookup_set_table_insert|reflexivity].
Qed.

(** X4, at the pool where A has made one video (threshold 2): after the
    second video, a cooldown check, an enable and a success, a check at
    time 50000 cools A until 93200. *)
Lemma cooldown_condition_persists_witness :
  let counted := snd (record_usage 1 true Scenario.pool_one_video) in
  let calls := [CallCheckCooldown 150 1; CallEnable 1; CallRecordSuccess 1] in
  exists db' r',
    check_and_apply_cooldown 50000 1 (run_calls calls counted) = (Ok tt, db')
    /\ table db' !! 1 = Some r'
    /\ cooled_until (row_token r') = Some 93200.
Proof.
  intros counted calls.
  apply (cooldown_condition_persists calls counted 1
           (set_row_stats (with_video_count 2) (Scenario.row "A" true)) 50000).
  - reflexivity.
  - vm_compute. discriminate.
Defined.

(** ** Errors, re-activation and cooldown *)

Lemma after_error_error_count threshold r :
  error_count (row_stats (after_error threshold r))
  = error_count (row_stats r) + 1.
Proof. unfold after_error. simpl. by destruct (_ <=? _). Qed.

Lemma after_error_banned threshold r :
  threshold <= error_count (row_stats r) + 1 ->
  is_active (row_token (after_error threshold r)) = false.
Proof.
  intros H. unfold after_error. simpl.
  destruct (Z.leb_spec threshold (error_count (row_stats r) + 1)); [done|lia].
Qed.

Lemma after_error_below threshold r :
  error_count (row_stats r) + 1 < threshold ->
  row_token (after_error threshold r) = row_token r.
Proof.
  intros H. unfold after_error. simpl.
  destruct (Z.leb_spec threshold (error_count (row_stats r) + 1)); [lia|done].
Qed.

(** X5: [n] consecutive [record_error] calls for a stored credential all
    return normally and leave [error_count] raised by [n]; the credential
    is disabled as soon as the count has reached the threshold, and as long
    as the count stays below it the token row is untouched. *)
Theorem record_errors_ban_at_threshold n token_id db r :
  table db !! token_id = Some r ->
  exists db' r',
    record_errors n token_id db = (Ok tt, db')
    /\ table db' !! token_id = Some r'
    /\ admin_config db' = admin_config db
    /\ error_count (row_stats r') = error_count (row_stats r) + Z.of_nat n
    /\ ((0 < n)%nat ->
        error_ban_threshold (admin_config db)
        <= error_count (row_stats r) + Z.of_nat n ->
        is_active (row_token r') = false)
    /\ (error_count (row_stats r) + Z.of_nat n
        < error_ban_threshold (admin_config db) ->
        row_token r' = row_token r).
Proof.
  revert db r. induction n as [|n IH]; intros db r Hr.
  - exists db, r. simpl. repeat split; try done; lia.
  - simpl record_errors. unfold bind. rewrite (record_error_run _ _ _ Hr).
    set (r1 := after_error (error_ban_threshold (admin_config db)) r).
    destruct (IH (set_table (<[token_id := r1]>) db) r1
                 (lookup_set_table_insert _ _ _))
      as (db' & r' & Hrun & Hr' & Hcfg & Hcount & Hban & Hbelow).
    simpl admin_config in *. unfold r1 in Hcount, Hban, Hbelow.
    rewrite after_error_error_count in Hcount, Hban, Hbelow.
    exists db', r'. split; [done|]. split; [done|]. split; [done|].
    split; [lia|]. split.
    + intros _ Hle. destruct n as [|n].
      * simpl in Hrun. injection Hrun as <-.
        rewrite lookup_set_table_insert in Hr'. injection Hr' as <-.
        apply after_error_banned. lia.
      * apply Hban; lia.
    + intros Hlt. rewrite Hbelow by lia. apply after_error_below. lia.
Qed.

(** X5, at the pool of section 8 (threshold 3): three errors on A. *)
Lemma record_errors_ban_at_threshold_witness :
  exists db' r',
    record_errors 3 1 Scenario.pool = (Ok tt, db')
    /\ table db' !! 1 = Some r'
    /\ error_count (row_stats r') = 3
    /\ is_active (row_token r') = false.
Proof.
  destruct (record_errors_ban_at_threshold 3 1 Scenario.pool
              (Scenario.row "A" true) eq_refl)
    as (db' & r' & Hrun & Hr' & _ & Hcount & Hban & _).
  exists db', r'. split; [exact Hrun|]. split; [exact Hr'|].
  split; [exact Hcount|]. apply Hban; [lia|vm_compute; discriminate].
Defined.

(** X6: [update_token_status(id, True)] re-activates a credential without
    touching [error_count], so for a credential at the threshold the next
    error disables it again at once; after [enable_token] the count
    restarts and the next error gives a count of 1, which leaves the
    credential active under any threshold above 1. *)
Theorem reactivation_and_error_count token_id db r :
  table db !! token_id = Some r ->
  error_ban_threshold (admin_config db) <= error_count (row_stats r) + 1 ->
  (exists db' r',
     (update_token_status token_id true;; record_error token_id) db
     = (Ok tt, db')
     /\ table db' !! token_id = Some r'
     /\ error_count (row_stats r') = error_count (row_stats r) + 1
     /\ is_active (row_token r') = false)
  /\ (1 < error_ban_threshold (admin_config db) ->
      exists db' r',
        (enable_token token_id;; record_error token_id) db = (Ok tt, db')
        /\ table db' !! token_id = Some r'
        /\ error_count (row_stats r') = 1
        /\ is_active (row_token r') = true).
Proof.
  intros Hr Hle. split.
  - unfold bind, update_token_status, db_update_token_status.
    rewrite (update_row_Some _ _ _ _ Hr).
    rewrite (record_error_run _ _ _ (lookup_set_table_insert _ _ _)).
    eexists _, _. split; [reflexivity|].
    split; [apply lookup_set_table_insert|].
    split; [by rewrite after_error_error_count|].
    apply after_error_banned. simpl. lia.
  - intros Hgt. unfold bind. rewrite (enable_token_run _ _ _ Hr).
    rewrite (record_error_run _ _ _ (lookup_set_table_insert _ _ _)).
    eexists _, _. split; [reflexivity|].
    split; [apply lookup_set_table_insert|].
    split; [by rewrite after_error_error_count|].
    rewrite after_error_below; [done|]. simpl. lia.
Qed.

(** X6, at the pool where A has three errors and the threshold is 3. *)
Lemma reactivation_and_error_count_witness :
  (exists db' r',
     (update_token_status 1 true;; record_error 1) Scenario.pool_three_errors
     = (Ok tt, db')
     /\ table db' !! 1 = Some r'
     /\ error_count (row_stats r') = 4
     /\ is_active (row_token r') = false)
  /\ (exists db' r',
        (enable_token 1;; record_error 1) Scenario.pool_three_errors
        = (Ok tt, db')
        /\ table db' !! 1 = Some r'
        /\ error_count (row_stats r') = 1
        /\ is_active (row_token r') = true).
Proof.
  destruct (reactivation_and_error_count 1 Scenario.pool_three_errors
              (Scenario.errors 3 (Scenario.row "A" true)) eq_refl)
    as [H1 H2].
  - vm_compute. discriminate.
  - split; [exact H1|]. apply H2. reflexivity.
Defined.

(** X7: [enable_token] does not lift a cooldown.  For a stored credential
    whose [cooled_until] is still ahead, enabling sets the status to active
    and the error count to 0 but leaves [cooled_until] and the usage
    counters, and [select_token] still does not return the credential. *)
Theorem enable_token_keeps_cooldown token_id db r c now :
  table db !! token_id = Some r ->
  cooled_until (row_token r) = Some c ->
  now < c ->
  exists db' r',
    enable_token token_id db = (Ok tt, db')
    /\ table db' !! token_id = Some r'
    /\ is_active (row_token r') = true
    /\ cooled_until (row_token r') = Some c
    /\ video_count (row_stats r') = video_count (row_stats r)
    /\ image_count (row_stats r') = image_count (row_stats r)
    /\ forall rnd for_image_generation lock t,
        fst (select_token now rnd for_image_generation
               {| token_manager := db'; token_lock := lock |})
        = Ok (Some t) ->
        id t <> token_id.
Proof.
  intros Hr Hc Hlt. rewrite (enable_token_run _ _ _ Hr).
  eexists _, _. split; [reflexivity|].
  split; [apply lookup_set_table_insert|]. repeat (split; [done|]).
  intros rnd b lock t. eapply unselectable_never_selected.
  - apply lookup_set_table_insert.
  - unfold selectable. simpl. rewrite Hc. apply Z.leb_gt. lia.
Qed.

(** X7, at the pool where A has made two videos and was cooled at time
    150: enabling A at time 200 leaves it cooled until 43350. *)
Lemma enable_token_keeps_cooldown_witness :
  let counted := snd (record_usage 1 true Scenario.pool_one_video) in
  let cooled := snd (check_and_apply_cooldown 150 1 counted) in
  exists db' r',
    enable_token 1 cooled = (Ok tt, db')
    /\ table db' !! 1 = Some r'
    /\ cooled_until (row_token r') = Some 43350
    /\ forall rnd for_image_generation t,
        fst (select_token 200 rnd for_image_generation
               {| token_manager := db';
                  token_lock := token_lock Scenario.lb |}) = Ok (Some t) ->
        id t <> 1.
Proof.
  intros counted cooled.
  destruct (enable_token_keeps_cooldown 1 cooled
              (set_row_token (with_cooled_until (Some 43350))
                 (set_row_stats (with_video_count 2) (Scenario.row "A" true)))
              43350 200 eq_refl eq_refl eq_refl)
    as (db' & r' & Hrun & Hr' & _ & Hc & _ & _ & Hsel).
  exists db', r'. split; [exact Hrun|]. split; [exact Hr'|].
  split; [exact Hc|]. intros rnd b t. apply Hsel.
Defined.

(** ** Selection and the lock table *)

Lemma eligible_video_any_lock now db lock lock' :
  eligible now false {| token_manager := db; token_lock := lock |}
  = eligible now false {| token_manager := db; token_lock := lock' |}.
Proof. unfold eligible. simpl. reflexivity. Qed.

Lemma eligible_image_as_video now lb :
  (forall t, t ∈ all_tokens (token_manager lb) ->
             selectable now t = true ->
             held now (token_lock lb) (id t) = false) ->
  eligible now true lb = eligible now false lb.
Proof.
  intros H. unfold eligible. apply filter_ext_in. intros t Ht.
  apply list_elem_of_In in Ht.
  destruct (selectable now t) eqn:Hs; simpl; [|done].
  by rewrite (H t Ht Hs).
Qed.

(** X8: selection for video generation does not read the lock table: for
    one pool, clock and draw it returns the same credential under any two
    lock tables. *)
Theorem select_token_video_ignores_locks now rnd db lock lock' :
  fst (select_token now rnd false {| token_manager := db; token_lock := lock |})
  = fst (select_token now rnd false
           {| token_manager := db; token_lock := lock' |}).
Proof.
  rewrite !select_token_choose. simpl.
  by rewrite (eligible_video_any_lock now db lock lock').
Qed.

(** X9: when no selectable credential is locked, selection for image
    generation makes the same choice as selection for video generation. *)
Theorem select_token_image_as_video now rnd lb :
  (forall t, t ∈ all_tokens (token_manager lb) ->
             selectable now t = true ->
             held now (token_lock lb) (id t) = false) ->
  select_token now rnd true lb = select_token now rnd false lb.
Proof.
  intros H. rewrite !select_token_choose.
  by rewrite (eligible_image_as_video now lb H).
Qed.

(** X9, at the pool of section 8 with both locks long expired (time 500,
    timeout 300). *)
Lemma select_token_image_as_video_witness :
  select_token 500 0 true Scenario.lb_all_locked
  = select_token 500 0 false Scenario.lb_all_locked.
Proof.
  apply (select_token_image_as_video 500 0 Scenario.lb_all_locked).
  intros t Ht _. apply elem_of_all_tokens in Ht as (k & r & Hk & ->).
  rewrite id_token_of_row. unfold held. simpl.
  destruct (decide (k = 1)) as [->|H1]; [reflexivity|].
  rewrite lookup_insert_ne by done.
  destruct (decide (k = 2)) as [->|H2]; [reflexivity|].
  by rewrite lookup_singleton_ne.
Defined.

(** X10: a load balancer as [__init__] builds it holds no lock, so until a
    lock is acquired it selects for image generation as for video
    generation, over any pool. *)
Theorem new_load_balancer_selects_alike token_manager image_timeout now rnd :
  select_token now rnd true (new_load_balancer token_manager image_timeout)
  = select_token now rnd false (new_load_balancer token_manager image_timeout).
Proof.
  rewrite !select_token_choose. rewrite eligible_image_as_video; [done|].
  intros t _ _. unfold held, new_load_balancer. simpl.
  by rewrite lookup_empty.
Qed.

(** ** More on admission and update *)

Lemma before_at_local local domain :
  has_at local = false ->
  before_at (local +:+ "@" +:+ domain) = local.
Proof.
  induction local as [|c local IH]; simpl; [done|].
  destruct (Ascii.eqb c "@"%char); simpl; [done|].
  intros H. by rewrite IH.
Qed.

Lemma nonempty_local_at local domain :
  nonempty (local +:+ "@" +:+ domain) = true.
Proof. by destruct local. Qed.

Section AdmissionMore.

Variable jwt_decode : string -> string + JwtClaims.
Variable fromtimestamp : JsonValue -> Result Z.
Variable parser_parse : string -> Result Z.
Variable session_get_me : string -> Result (Response UserInfo).
Variable session_get_subscriptions :
  string -> Result (Response (list Subscription)).
Variable session_get_invite_mine : string -> Result (Response InviteMine).

Local Abbreviation get_user_info' := (get_user_info session_get_me).
Local Abbreviation get_subscription_info' :=
  (get_subscription_info session_get_subscriptions).
Local Abbreviation get_sora2_invite_code' :=
  (get_sora2_invite_code session_get_invite_mine).
Local Abbreviation subscription_block' :=
  (subscription_block parser_parse session_get_subscriptions).
Local Abbreviation add_token' :=
  (add_token jwt_decode fromtimestamp parser_parse session_get_me
     session_get_subscriptions session_get_invite_mine).
Local Abbreviation update_token' := (update_token jwt_decode fromtimestamp).

(** The token that [add_token] builds from what its three blocks leave. *)
Local Abbreviation built token_id token_value st' rt' remark' expiry
    email' name' plan_type' plan_title' subscription_end'
    supported code redeemed total :=
  {| id := token_id; token := token_value; email := email'; name := name';
     st := st'; rt := rt'; remark := remark';
     expiry_time := expiry; is_active := true;
     cooled_until := None;
     plan_type := plan_type'; plan_title := plan_title';
     subscription_end := subscription_end';
     sora2_supported := supported; sora2_invite_code := code;
     sora2_redeemed_count := redeemed; sora2_total_count := total |}.

Lemma user_block_closed tv (jwt_email : option string) db :
  try_except
    (let* user_info := get_user_info' tv in
     ret (default (or_empty jwt_email) (ui_email user_info),
          or_empty (ui_name user_info)))
    (fun _ =>
       ret (or_empty jwt_email,
            if nonempty (or_empty jwt_email)
            then before_at (or_empty jwt_email) else EmptyString))
    db
  = (Ok (user_fields jwt_email (fst (get_user_info' tv db))), db).
Proof.
  unfold try_except, bind.
  pose proof (get_user_info_stateless session_get_me tv db) as Hs.
  destruct (get_user_info' tv db) as [[user_info|e] db1];
    simpl in Hs; subst db1; reflexivity.
Qed.

Lemma subscription_block_closed tv db :
  subscription_block' tv db
  = (Ok (subscription_fields parser_parse
           (fst (get_subscription_info' tv db))), db).
Proof.
  unfold subscription_block, try_except, bind at 1.
  pose proof (get_subscription_info_stateless session_get_subscriptions tv db)
    as Hs.
  destruct (get_subscription_info' tv db) as [[sub_info|e] db1];
    simpl in Hs; subst db1; simpl; [|done].
  destruct (nonempty _); [|done].
  unfold bind, lift, ret. by destruct (parser_parse _).
Qed.

Lemma sora2_block_closed tv db :
  try_except
    (let* sora2_info := get_sora2_invite_code' tv in
     ret (Some (s2_supported sora2_info),
          s2_invite_code sora2_info,
          default 0 (s2_redeemed_count sora2_info),
          default 0 (s2_total_count sora2_info)))
    (fun _ => ret (None, None, 0, 0))
    db
  = (Ok (sora2_fields (fst (get_sora2_invite_code' tv db))), db).
Proof.
  unfold try_except, bind.
  pose proof (get_sora2_invite_code_stateless session_get_invite_mine tv db)
    as Hs.
  destruct (get_sora2_invite_code' tv db) as [[sora2_info|e] db1];
    simpl in Hs; subst db1; reflexivity.
Qed.

(** [add_token] for a new secret value that decodes and whose [exp]
    converts, in closed form. *)
Lemma add_token_new_run tv st' rt' remark' update_if_exists db decoded expiry :
  fst (db_get_token_by_value tv db) = Ok None ->
  jwt_decode tv = inr decoded ->
  convert_exp fromtimestamp decoded = Ok expiry ->
  let u := user_fields (jwt_email_of decoded) (fst (get_user_info' tv db)) in
  let s := subscription_fields parser_parse
             (fst (get_subscription_info' tv db)) in
  let z := sora2_fields (fst (get_sora2_invite_code' tv db)) in
  let t := built (next_id db) tv st' rt' remark' expiry
             u.1 u.2 s.1.1 s.1.2 s.2 z.1.1.1 z.1.1.2 z.1.2 z.2 in
  add_token' tv st' rt' remark' update_if_exists db
  = (Ok (Some t),
     set_table (<[next_id db := {| row_token := t;
                                   row_stats := new_stats |}]>) db).
Proof.
  intros Hnew Hdec Hexp. unfold add_token.
  unfold bind at 1. rewrite (db_get_token_by_value_run _ _ _ Hnew).
  unfold bind at 1. rewrite (decode_jwt_inr _ _ _ _ Hdec).
  unfold bind at 1, lift at 1. rewrite Hexp.
  unfold bind at 1. rewrite user_block_closed.
  destruct (user_fields _ _) as [email' name'].
  unfold bind at 1. rewrite subscription_block_closed.
  destruct (subscription_fields _ _) as [[pt ptitle] send].
  unfold bind at 1. rewrite sora2_block_closed.
  destruct (sora2_fields _) as [[[sup code] red] tot].
  reflexivity.
Qed.





(** X15: [update_token] stores whatever secret value it is given.  For a
    stored credential it never raises: a value that does not decode, or
    whose [exp] does not convert, is written all the same and leaves
    [expiry_time] as it was; a value that decodes to an [exp] that converts
    replaces [expiry_time]; and status, cooldown and counters are
    untouched. *)
Theorem update_token_stores_any_value token_id tok st' rt' remark' db r :
  table db !! token_id = Some r ->
  exists r',
    update_token' token_id tok st' rt' remark' db
    = (Ok tt, set_table (<[token_id := r']>) db)
    /\ token (row_token r') = default (token (row_token r)) tok
    /\ st (row_token r') = or_keep st' (st (row_token r))
    /\ rt (row_token r') = or_keep rt' (rt (row_token r))
    /\ remark (row_token r') = or_keep remark' (remark (row_token r))
    /\ (forall tv e,
          tok = Some tv -> jwt_decode tv = inl e ->
          expiry_time (row_token r') = expiry_time (row_token r))
    /\ (forall tv decoded e,
          tok = Some tv -> jwt_decode tv = inr decoded ->
          convert_exp fromtimestamp decoded = Raise e ->
          expiry_time (row_token r') = expiry_time (row_token r))
    /\ (forall tv decoded expiry,
          tok = Some tv -> tv <> EmptyString ->
          jwt_decode tv = inr decoded ->
          convert_exp fromtimestamp decoded = Ok expiry ->
          expiry_time (row_token r')
          = or_keep expiry (expiry_time (row_token r)))
    /\ is_active (row_token r') = is_active (row_token r)
    /\ cooled_until (row_token r') = cooled_until (row_token r)
    /\ row_stats r' = row_stats r.
Proof.
  intros Hr. unfold update_token.
  assert (Hexp : exists expiry,
             (match tok with
              | Some tv =>
                  if nonempty tv then
                    try_except
                      (let* decoded := decode_jwt jwt_decode tv in
                       let* expiry_time :=
                         lift (convert_exp fromtimestamp decoded) in
                       ret expiry_time)
                      (fun _ => ret None)
                  else ret None
              | None => ret None
              end) db = (Ok expiry, db)
             /\ (forall tv e, tok = Some tv -> jwt_decode tv = inl e ->
                              expiry = None)
             /\ (forall tv decoded e,
                   tok = Some tv -> jwt_decode tv = inr decoded ->
                   convert_exp fromtimestamp decoded = Raise e ->
                   expiry = None)
             /\ (forall tv decoded expiry',
                   tok = Some tv -> tv <> EmptyString ->
                   jwt_decode tv = inr decoded ->
                   convert_exp fromtimestamp decoded = Ok expiry' ->
                   expiry = expiry')).
  { destruct tok as [tv|]; [|by exists None].
    unfold nonempty.
    destruct (String.eqb_spec tv EmptyString) as [->|Hne]; simpl.
    - exists None. split; [done|]. split; [done|]. split; [done|].
      intros tv0 d0 x [= <-] Hne. done.
    - unfold try_except, bind, decode_jwt, lift.
      destruct (jwt_decode tv) as [e|decoded] eqn:Hd; simpl.
      + exists None. split; [done|]. split; [done|]. split; [done|].
        intros tv0 d0 x [= <-] _ H1. rewrite Hd in H1. discriminate.
      + destruct (convert_exp fromtimestamp decoded) as [expiry|e] eqn:Hc;
          simpl.
        * exists expiry. split; [done|]. split; [|split].
          { intros tv0 e0 [= <-] H1. rewrite Hd in H1. discriminate. }
          { intros tv0 d0 e0 [= <-] H1 H2. rewrite Hd in H1.
            injection H1 as <-. congruence. }
          intros tv0 d0 x [= <-] _ H1 H2. rewrite Hd in H1.
          injection H1 as <-. congruence.
        * exists None. split; [done|]. split; [done|]. split; [done|].
          intros tv0 d0 x [= <-] _ H1 H2. rewrite Hd in H1.
          injection H1 as <-. congruence. }
  destruct Hexp as (expiry & Hrun & Hbad & Hfar & Hgood).
  unfold bind at 1. rewrite Hrun. unfold db_update_token.
  rewrite (update_row_Some _ _ _ _ Hr).
  eexists. split; [reflexivity|]. simpl.
  repeat (split; [done|]). split; [|split; [|split; [|done]]].
  - intros tv e Htok Hd. by rewrite (Hbad tv e Htok Hd).
  - intros tv decoded e Htok Hd Hc. by rewrite (Hfar tv decoded e Htok Hd Hc).
  - intros tv decoded expiry' Htok Hne Hd Hc.
    by rewrite (Hgood tv decoded expiry' Htok Hne Hd Hc).
Qed.

End AdmissionMore.

(** ** The upstream calls and [test_token] *)

Section Upstream.

Variable session_get_me : string -> Result (Response UserInfo).
Variable session_get_subscriptions :
  string -> Result (Response (list Subscription)).
Variable session_get_invite_mine : string -> Result (Response InviteMine).
Variable session_post_invite_accept :
  string -> string -> string -> Result (Response InviteAccept).
Variable session_get_auth_session : string -> Result (Response SessionBody).
Variable session_post_oauth_token : string -> Result (Response OauthBody).
Variable ui_username : UserInfo -> option string.

Local Abbreviation get_user_info' := (get_user_info session_get_me).
Local Abbreviation get_subscription_info' :=
  (get_subscription_info session_get_subscriptions).
Local Abbreviation get_sora2_invite_code' :=
  (get_sora2_invite_code session_get_invite_mine).
Local Abbreviation activate_sora2_invite' :=
  (activate_sora2_invite session_post_invite_accept).
Local Abbreviation st_to_at' := (st_to_at session_get_auth_session).
Local Abbreviation rt_to_at' := (rt_to_at session_post_oauth_token).
Local Abbreviation test_token' :=
  (test_token session_get_me session_get_invite_mine ui_username).

(** X16: [get_sora2_invite_code] reports a refused request instead of
    raising.  For any response whose status is not 200, whatever its body,
    it returns "not supported" with no invite code; it raises only what the
    session raises or what parsing the body of a 200 response raises; and a
    result "supported" always comes from a 200 response whose body parsed,
    with absent counts read as 0. *)
Theorem get_sora2_invite_code_lenient access_token db :
  (forall response,
     session_get_invite_mine access_token = Ok response ->
     status_code response <> 200 ->
     get_sora2_invite_code session_get_invite_mine access_token db
     = (Ok {| s2_supported := false; s2_invite_code := None;
              s2_redeemed_count := None; s2_total_count := None |}, db))
  /\ (forall e,
        fst (get_sora2_invite_code session_get_invite_mine access_token db)
        = Raise e ->
        session_get_invite_mine access_token = Raise e
        \/ exists response,
            session_get_invite_mine access_token = Ok response
            /\ status_code response = 200
            /\ json response = Raise e)
  /\ (forall info,
        fst (get_sora2_invite_code session_get_invite_mine access_token db)
        = Ok info ->
        s2_supported info = true ->
        exists response data,
          session_get_invite_mine access_token = Ok response
          /\ status_code response = 200
          /\ json response = Ok data
          /\ s2_invite_code info = im_invite_code data
          /\ s2_redeemed_count info
             = Some (default 0 (im_redeemed_count data))
          /\ s2_total_count info = Some (default 0 (im_total_count data))).
Proof.
  unfold get_sora2_invite_code, bind, lift, ret.
  destruct (session_get_invite_mine access_token) as [response|e0];
    simpl; [|split; [done|split; [intros e [= ->]; by left|done]]].
  destruct (Z.eqb_spec (status_code response) 200) as [H200|Hne].
  - split; [intros ? [= <-]; done|].
    destruct (json response) as [data|e0] eqn:Hj; simpl; split.
    + done.
    + intros info [= <-] _. exists response, data. done.
    + intros e [= ->]. right. exists response. done.
    + done.
  - split; [by intros ? [= <-] _|]. split; [done|].
    intros info [= <-]. done.
Qed.

(** X17: the other upstream calls return a value only for a response with
    status 200 whose body parsed: [get_user_info] returns that body,
    [get_subscription_info], [activate_sora2_invite], [st_to_at] and
    [rt_to_at] a dict read from it; and none of the five writes to the
    store, also when it raises. *)
Theorem upstream_values_need_status_200 db :
  (forall access_token user_info,
     fst (get_user_info session_get_me access_token db) = Ok user_info ->
     exists response,
       session_get_me access_token = Ok response
       /\ status_code response = 200 /\ json response = Ok user_info)
  /\ (forall token sub_info,
        fst (get_subscription_info session_get_subscriptions token db)
        = Ok sub_info ->
        exists response data,
          session_get_subscriptions token = Ok response
          /\ status_code response = 200 /\ json response = Ok data)
  /\ (forall device_id access_token invite_code activation,
        fst (activate_sora2_invite session_post_invite_accept device_id
               access_token invite_code db)
        = Ok activation ->
        exists response data,
          session_post_invite_accept access_token device_id invite_code
          = Ok response
          /\ status_code response = 200 /\ json response = Ok data
          /\ act_success activation = default false (ia_success data))
  /\ (forall session_token result,
        fst (st_to_at session_get_auth_session session_token db) = Ok result ->
        exists response data,
          session_get_auth_session session_token = Ok response
          /\ status_code response = 200 /\ json response = Ok data
          /\ sa_access_token result = sb_access_token data)
  /\ (forall refresh_token result,
        fst (rt_to_at session_post_oauth_token refresh_token db) = Ok result ->
        exists response data,
          session_post_oauth_token refresh_token = Ok response
          /\ status_code response = 200 /\ json response = Ok data
          /\ ra_access_token result = ob_access_token data
          /\ ra_refresh_token result = ob_refresh_token data)
  /\ (forall access_token token device_id invite_code session_token
             refresh_token,
        snd (get_user_info session_get_me access_token db) = db
        /\ snd (get_subscription_info session_get_subscriptions token db) = db
        /\ snd (activate_sora2_invite session_post_invite_accept device_id
                  access_token invite_code db)
           = db
        /\ snd (st_to_at session_get_auth_session session_token db) = db
        /\ snd (rt_to_at session_post_oauth_token refresh_token db) = db).
Proof.
  repeat split.
  - intros access_token user_info.
    unfold get_user_info, bind, lift.
    destruct (session_get_me access_token) as [response|e]; [|done].
    destruct (Z.eqb_spec (status_code response) 200) as [H200|Hne];
      simpl; [|done].
    intros H. exists response. done.
  - intros token sub_info.
    unfold get_subscription_info, bind, lift.
    destruct (session_get_subscriptions token) as [response|e]; [|done].
    destruct (Z.eqb_spec (status_code response) 200) as [H200|Hne];
      simpl; [|done].
    destruct (json response) as [data|e] eqn:Hj; [|done].
    intros _. by exists response, data.
  - intros device_id access_token invite_code activation.
    unfold activate_sora2_invite, bind, lift.
    destruct (session_post_invite_accept _ _ _) as [response|e]; [|done].
    destruct (Z.eqb_spec (status_code response) 200) as [H200|Hne];
      simpl; [|done].
    destruct (json response) as [data|e] eqn:Hj; [|done].
    intros [= <-]. by exists response, data.
  - intros session_token result.
    unfold st_to_at, bind, lift.
    destruct (session_get_auth_session _) as [response|e]; [|done].
    destruct (Z.eqb_spec (status_code response) 200) as [H200|Hne];
      simpl; [|done].
    destruct (json response) as [data|e] eqn:Hj; [|done].
    intros [= <-]. by exists response, data.
  - intros refresh_token result.
    unfold rt_to_at, bind, lift.
    destruct (session_post_oauth_token _) as [response|e]; [|done].
    destruct (Z.eqb_spec (status_code response) 200) as [H200|Hne];
      simpl; [|done].
    destruct (json response) as [data|e] eqn:Hj; [|done].
    intros [= <-]. by exists response, data.
  - apply get_user_info_stateless.
  - apply get_subscription_info_stateless.
  - unfold activate_sora2_invite, bind, lift.
    destruct (session_post_invite_accept _ _ _) as [response|e]; [|done].
    destruct (_ =? _); [|done]. by destruct (json response).
  - unfold st_to_at, bind, lift.
    destruct (session_get_auth_session _) as [response|e]; [|done].
    destruct (negb _); [done|]. by destruct (json response).
  - unfold rt_to_at, bind, lift.
    destruct (session_post_oauth_token _) as [response|e]; [|done].
    destruct (negb _); [done|]. by destruct (json response).
Qed.


End Upstream.





(** X15, at the pool of section 8: with a token library that decodes
    nothing, and with one that decodes to an [exp] far out of range, the
    secret value of A is replaced all the same and [expiry_time] stays
    unset. *)
Lemma update_token_stores_any_value_witness :
  (exists r',
     update_token Scenario.jwt_rejects Scenario.fromtimestamp
       1 (Some "not-a-jwt"%string) None None None Scenario.pool
     = (Ok tt, set_table (<[1 := r']>) Scenario.pool)
     /\ token (row_token r') = "not-a-jwt"%string
     /\ expiry_time (row_token r') = None)
  /\ (exists r',
        update_token Scenario.jwt_far_exp Scenario.fromtimestamp
          1 (Some "E"%string) None None None Scenario.pool
        = (Ok tt, set_table (<[1 := r']>) Scenario.pool)
        /\ token (row_token r') = "E"%string
        /\ expiry_time (row_token r') = None).
Proof.
  split.
  - destruct (update_token_stores_any_value Scenario.jwt_rejects
                Scenario.fromtimestamp 1
                (Some "not-a-jwt"%string) None None None Scenario.pool
                (Scenario.row "A" true) eq_refl)
      as (r' & Hrun & Htok & _ & _ & _ & Hbad & _).
    exists r'. split; [exact Hrun|]. split; [exact Htok|].
    exact (Hbad _ _ eq_refl eq_refl).
  - destruct (update_token_stores_any_value Scenario.jwt_far_exp
                Scenario.fromtimestamp 1
                (Some "E"%string) None None None Scenario.pool
                (Scenario.row "A" true) eq_refl)
      as (r' & Hrun & Htok & _ & _ & _ & _ & Hfar & _).
    exists r'. split; [exact Hrun|]. split; [exact Htok|].
    exact (Hfar _ _ _ eq_refl eq_refl eq_refl).
Defined.

(** X16, with an upstream that answers the invite request with status 401
    and a body that is not JSON. *)
Lemma get_sora2_invite_code_lenient_witness :
  let refuse : string -> Result (Response InviteMine) :=
    fun _ => Ok {| status_code := 401;
                   json := Raise (ValueError "Expecting value");
                   text := "Unauthorized" |} in
  get_sora2_invite_code refuse "A" Scenario.pool
  = (Ok {| s2_supported := false; s2_invite_code := None;
           s2_redeemed_count := None; s2_total_count := None |},
     Scenario.pool).
Proof.
  intros refuse.
  apply (proj1 (get_sora2_invite_code_lenient refuse "A" Scenario.pool)
           {| status_code := 401; json := Raise (ValueError "Expecting value");
              text := "Unauthorized" |}).
  - reflexivity.
  - discriminate.
Defined.

(** X17, with an upstream that answers [/me] with status 200. *)
Lemma upstream_values_need_status_200_witness :
  let me : string -> Result (Response UserInfo) :=
    fun _ => Ok {| status_code := 200;
                   json := Ok {| ui_email := Some "a@example.com"%string;
                                 ui_name := None |};
                   text := EmptyString |} in
  exists response,
    me "A"%string = Ok response /\ status_code response = 200.
Proof.
  intros me.
  destruct (proj1 (upstream_values_need_status_200 me Scenario.unreachable
                     (fun _ _ _ => Scenario.unreachable EmptyString)
                     Scenario.unreachable Scenario.unreachable Scenario.pool)
              "A"%string {| ui_email := Some "a@example.com"%string;
                            ui_name := None |} eq_refl)
    as (response & Hresp & H200 & _).
  by exists response.
Defined.


(** ** Deleting and adding again *)

Lemma find_none_all {A} (f : A -> bool) l :
  (forall x, x ∈ l -> f x = false) -> List.find f l = None.
Proof.
  induction l as [|x l IH]; intros H; [done|]. simpl.
  rewrite (H x) by left. apply IH. intros y Hy. apply H. by right.
Qed.


